(** * Mixed-script vocabulary extraction and per-year aggregation

    A shallow embedding of the tokenizer and aggregation pipeline of
    [youqian.py] ([ChineseRapVocabularyAnalyzer]) and
    [keyword_frequency_analyzer.py] ([KeywordFrequencyAnalyzer]).

    Python strings are sequences of Unicode code points: a character is a
    code point in [N], a [str] is a list of them.  Python integers (years,
    counters) are unbounded and are modelled in [Z].  Dictionaries keep
    insertion order, which [Counter.most_common] exposes, so the tables are
    association lists updated in place. *)

From Stdlib Require Import List Bool Arith ZArith NArith Lia.
From Stdlib Require Import Sorted Permutation.
Import ListNotations.

Set Implicit Arguments.

(* ================================================================== *)
(** ** Python string primitives *)

Module PyStr.

Definition char := N.
Definition str := list char.

(** [not l] for a string or a list. *)
Definition null {A : Type} (l : list A) : bool :=
  match l with [] => true | _ :: _ => false end.

(** [c in s] for a one-character [c]. *)
Definition mem (c : char) (s : str) : bool := existsb (N.eqb c) s.

(** [str.isspace] on one character, the set [str.split()] and [str.strip()]
    use: U+0009-000D, U+001C-0020, U+0085, U+00A0, U+1680, U+2000-200A,
    U+2028, U+2029, U+202F, U+205F, U+3000. *)
Definition isspace (c : char) : bool :=
  ((9 <=? c) && (c <=? 13) || (28 <=? c) && (c <=? 32) ||
   (c =? 133) || (c =? 160) || (c =? 5760) ||
   (8192 <=? c) && (c <=? 8202) || (c =? 8232) || (c =? 8233) ||
   (c =? 8239) || (c =? 8287) || (c =? 12288))%N.

Fixpoint lstrip (p : char -> bool) (s : str) : str :=
  match s with
  | [] => []
  | c :: s' => if p c then lstrip p s' else s
  end.

Fixpoint rstrip (p : char -> bool) (s : str) : str :=
  match s with
  | [] => []
  | c :: s' =>
      let r := rstrip p s' in
      if p c && null r then [] else c :: r
  end.

(** [s.strip()] with [p := isspace]; [s.strip(chars)] with
    [p := fun c => mem c chars]. *)
Definition strip (p : char -> bool) (s : str) : str := rstrip p (lstrip p s).

Definition flush (cur : str) : list str :=
  if null cur then [] else [cur].

(** The maximal runs of characters outside [p], left to right; [cur] is
    the run being read. *)
Fixpoint split_aux (p : char -> bool) (cur : str) (s : str) : list str :=
  match s with
  | [] => flush cur
  | c :: s' =>
      if p c then flush cur ++ split_aux p [] s'
      else split_aux p (cur ++ [c]) s'
  end.

(** [s.split()] is [split isspace s]. *)
Definition split (p : char -> bool) (s : str) : list str := split_aux p [] s.

Definition is_ascii (c : char) : bool := (c <? 128)%N.

Definition ascii_isalnum (c : char) : bool :=
  ((48 <=? c) && (c <=? 57) || (65 <=? c) && (c <=? 90) ||
   (97 <=? c) && (c <=? 122))%N.

Definition ascii_lower_char (c : char) : char :=
  if ((65 <=? c) && (c <=? 90))%N then (c + 32)%N else c.

Definition ascii_lower (s : str) : str := map ascii_lower_char s.

Definition str_eqb (a b : str) : bool :=
  if list_eq_dec N.eq_dec a b then true else false.

End PyStr.
Import PyStr.

(** The Unicode character database behind [str.isalnum] and [str.lower]
    is not part of the program.  It is an interface whose laws fix what
    CPython does on ASCII input. *)
Class Unicode := {
  isalnum : char -> bool;
  lower : str -> str;
  isalnum_ascii : forall c, is_ascii c = true -> isalnum c = ascii_isalnum c;
  lower_ascii :
    forall s, forallb is_ascii s = true -> lower s = ascii_lower s
}.

(** The segmentation oracle [jieba.lcut]. *)
Class Segmenter := { lcut : str -> list str }.

(* ================================================================== *)
(** ** The tokenizer and the vocabulary filter *)

Section Vocabulary.

Context {U : Unicode} {J : Segmenter}.

(** [is_chinese_character]: the character lies between U+4E00 and U+9FFF,
    both included. *)
Definition is_chinese_character (c : char) : bool :=
  ((0x4e00 <=? c) && (c <=? 0x9fff))%N.

(** The eight marks of the character class in [is_english_word]:
    apostrophe, double quote, full stop, exclamation mark, question mark,
    hyphen, colon, semicolon. *)
Definition regex_punctuation : str := [39; 34; 46; 33; 63; 45; 58; 59]%N.

(** The string literal that [extract_vocabulary] tests characters against
    and strips tokens with.  It is written like the character class of the
    regular expression but is not a raw string, and backslash-hyphen is not
    an escape sequence, so the backslash (92) stays in the string: nine
    characters. *)
Definition punctuation_literal : str :=
  [39; 34; 46; 33; 63; 92; 45; 58; 59]%N.

(** [(char.isalnum() or char in LITERAL)
     and not self.is_chinese_character(char)] *)
Definition latin_eligible (c : char) : bool :=
  (isalnum c || mem c punctuation_literal) && negb (is_chinese_character c).

(** One character of the class of [is_english_word]: an ASCII letter or
    digit or one of the eight marks. *)
Definition english_class (c : char) : bool :=
  ascii_isalnum c || mem c regex_punctuation.

(** [re.match] with an anchored pattern: one or more characters of the
    class, then the end of the string, where the dollar anchor also matches
    just before a final newline (10). *)
Definition only_newline (s : str) : bool :=
  match s with
  | [c] => (c =? 10)%N
  | _ => false
  end.

Fixpoint is_english_word (word : str) : bool :=
  match word with
  | [] => false
  | c :: w' =>
      english_class c && (null w' || only_newline w' || is_english_word w')
  end.

Definition long_enough (w : str) : bool := 2 <=? length w.

Definition chinese_part (token : str) : str :=
  filter is_chinese_character token.

Definition english_part (token : str) : str :=
  filter latin_eligible token.

(** The body of the loop [for token in tokens]: the units one token
    appends to [vocabulary]. *)
Definition token_units (token : str) : list str :=
  let token := strip isspace token in
  if null token then []
  else
    let has_chinese := existsb is_chinese_character token in
    let has_english := existsb latin_eligible token in
    if has_chinese && has_english then
      (if null (chinese_part token) then []
       else filter long_enough (lcut (chinese_part token)))
      ++ (if null (english_part token) then []
          else [lower (english_part token)])
    else if has_chinese then
      filter long_enough (lcut token)
    else if has_english then
      let cleaned_token :=
        lower (strip (fun c => mem c punctuation_literal) token) in
      if long_enough cleaned_token then [cleaned_token] else []
    else [].

(** The list [vocabulary] when the first loop ends. *)
Definition vocabulary (text : str) : list str :=
  flat_map token_units (split isspace text).

(** [self.is_chinese_character(word[0])] *)
Definition first_is_chinese (word : str) : bool :=
  match word with
  | [] => false
  | c :: _ => is_chinese_character c
  end.

(** The body of the loop [for word in vocabulary]. *)
Definition filter_unit (word : str) : list str :=
  let word := strip isspace word in
  if long_enough word then
    if is_english_word word || first_is_chinese word then [word] else []
  else [].

Definition vocabulary_filter (units : list str) : list str :=
  flat_map filter_unit units.

(** [extract_vocabulary(text)] for a string [text]. *)
Definition extract_vocabulary (text : str) : list str :=
  if null text then []
  else
    let text := strip isspace text in
    if null text then []
    else vocabulary_filter (vocabulary text).

End Vocabulary.

(* ================================================================== *)
(** ** Dictionaries in insertion order, [sorted], [Counter.most_common] *)

Module Dict.
Section Dict.

Variables K V : Type.
Variable eqb : K -> K -> bool.

Definition dict := list (K * V).

(** [m[k]] read without inserting; [d] is what a [defaultdict] or a
    [Counter] answers for a missing key. *)
Fixpoint get (d : V) (k : K) (m : dict) : V :=
  match m with
  | [] => d
  | (k', v) :: m' => if eqb k k' then v else get d k m'
  end.

(** [m[k] = f(m[k])] on a [defaultdict] with default [d]: an existing key
    keeps its place, a new key goes last. *)
Fixpoint update (d : V) (f : V -> V) (k : K) (m : dict) : dict :=
  match m with
  | [] => [(k, f d)]
  | (k', v) :: m' =>
      if eqb k k' then (k', f v) :: m' else (k', v) :: update d f k m'
  end.

Definition keys (m : dict) : list K := map fst m.

End Dict.
End Dict.

Section Sorting.

Variable A : Type.
Variable leb : A -> A -> bool.

Fixpoint insert_sorted (x : A) (l : list A) : list A :=
  match l with
  | [] => [x]
  | y :: l' => if leb x y then x :: l else y :: insert_sorted x l'
  end.

(** [sorted(l)] for the order [leb]: a stable sort, an element stays before
    the later elements it ties with. *)
Definition sorted (l : list A) : list A := fold_right insert_sorted [] l.

End Sorting.

Definition counter := list (str * Z).

(** Descending count: the order of [sorted(..., key=itemgetter(1),
    reverse=True)]. *)
Definition count_geb (x y : str * Z) : bool := (snd y <=? snd x)%Z.

(** [Counter.most_common(n)] for an integer [n]: [heapq.nlargest(n, items,
    key=itemgetter(1))], which the library defines as
    [sorted(items, key=key, reverse=True)[:n]] and which is empty for
    [n <= 0]. *)
Definition most_common (n : Z) (c : counter) : list (str * Z) :=
  firstn (Z.to_nat n) (sorted count_geb c).

(** The order of Python on pairs of integers. *)
Definition pair_leb (x y : Z * Z) : bool :=
  ((fst x <? fst y) || (fst x =? fst y) && (snd x <=? snd y))%Z.

(* ================================================================== *)
(** ** Rows *)

(** The cell [row['year']]: missing ([pd.notna] is false), a value [int]
    converts, or a value [int] raises on. *)
Inductive year_cell : Type :=
| YearMissing
| YearInt (y : Z)
| YearInvalid.

(** [row_lyrics] is [None] when [pd.notna(row['lyrics'])] is false. *)
Record row : Type := {
  row_year : year_cell;
  row_lyrics : option str
}.

(** [int(row['year']) if pd.notna(row['year']) else None]; the outer
    [None] is the exception of [int], which the [except] clause of the loop
    turns into [continue]. *)
Definition read_year (c : year_cell) : option (option Z) :=
  match c with
  | YearMissing => Some None
  | YearInt y => Some (Some y)
  | YearInvalid => None
  end.

(** [row['lyrics'] if pd.notna(row['lyrics']) else ''] *)
Definition read_lyrics (l : option str) : str :=
  match l with Some s => s | None => [] end.

(** [not year] *)
Definition not_year (year : option Z) : bool :=
  match year with
  | None => true
  | Some y => (y =? 0)%Z
  end.

(* ================================================================== *)
(** ** Full-vocabulary mode: [ChineseRapVocabularyAnalyzer] *)

Record analyzer : Type := {
  vocab_by_year : list (Z * counter);
  songs_processed : Z;
  total_vocab_count : Z
}.

Definition new_analyzer : analyzer :=
  {| vocab_by_year := []; songs_processed := 0; total_vocab_count := 0 |}.

(** [self.vocab_by_year[year][word] += 1; self.total_vocab_count += 1] *)
Definition count_word (year : Z) (a : analyzer) (word : str) : analyzer :=
  {| vocab_by_year :=
       Dict.update Z.eqb [] (Dict.update str_eqb 0%Z (fun n => n + 1)%Z word)
         year (vocab_by_year a);
     songs_processed := songs_processed a;
     total_vocab_count := (total_vocab_count a + 1)%Z |}.

Definition song_done (a : analyzer) : analyzer :=
  {| vocab_by_year := vocab_by_year a;
     songs_processed := (songs_processed a + 1)%Z;
     total_vocab_count := total_vocab_count a |}.

(** [self.vocab_by_year[year][word]], read as a [Counter] reads. *)
Definition entry (a : analyzer) (year : Z) (word : str) : Z :=
  Dict.get str_eqb 0%Z word (Dict.get Z.eqb [] year (vocab_by_year a)).

Section FullVocabulary.

Context {U : Unicode} {J : Segmenter}.

(** One iteration of [for index, row in df.iterrows()] in
    [analyze_csv_file]. *)
Definition process_row (a : analyzer) (r : row) : analyzer :=
  match read_year (row_year r) with
  | None => a
  | Some year =>
      let lyrics := read_lyrics (row_lyrics r) in
      if not_year year || null lyrics then a
      else
        match year with
        | None => a
        | Some y =>
            let vocab_words := extract_vocabulary lyrics in
            if null vocab_words then a
            else song_done (fold_left (count_word y) vocab_words a)
        end
  end.

Definition analyze_csv_file (rows : list row) (a : analyzer) : analyzer :=
  fold_left process_row rows a.

End FullVocabulary.

(** [generate_yearly_rankings(top_n)]; the result dictionary is filled in
    the order of [sorted(self.vocab_by_year.keys())]. *)
Definition generate_yearly_rankings (top_n : Z) (a : analyzer)
  : list (Z * list (str * Z)) :=
  map (fun year =>
         (year, most_common top_n (Dict.get Z.eqb [] year (vocab_by_year a))))
      (sorted Z.leb (Dict.keys (vocab_by_year a))).

(* ================================================================== *)
(** ** Fixed-keyword mode: [KeywordFrequencyAnalyzer] *)

Record keyword_analyzer : Type := {
  keyword_frequencies : list (str * list (Z * Z));
  kw_songs_processed : Z;
  total_matches : Z
}.

Definition new_keyword_analyzer : keyword_analyzer :=
  {| keyword_frequencies := []; kw_songs_processed := 0; total_matches := 0 |}.

Definition kw_song_done (a : keyword_analyzer) : keyword_analyzer :=
  {| keyword_frequencies := keyword_frequencies a;
     kw_songs_processed := (kw_songs_processed a + 1)%Z;
     total_matches := total_matches a |}.

(** [self.keyword_frequencies[keyword][year]], read without inserting. *)
Definition kw_entry (a : keyword_analyzer) (keyword : str) (year : Z) : Z :=
  Dict.get Z.eqb 0%Z year
    (Dict.get str_eqb [] keyword (keyword_frequencies a)).

Section FixedKeywords.

Context {U : Unicode} {J : Segmenter}.

(** [sum(1 for word in vocab_words if word.lower() == keyword_lower)] *)
Definition matches (keyword : str) (vocab_words : list str) : Z :=
  let keyword_lower := lower keyword in
  Z.of_nat
    (length (filter (fun word => str_eqb (lower word) keyword_lower)
               vocab_words)).

(** The body of [for keyword in keywords]. *)
Definition count_keyword (year : Z) (vocab_words : list str)
    (a : keyword_analyzer) (keyword : str) : keyword_analyzer :=
  let m := matches keyword vocab_words in
  if (0 <? m)%Z then
    {| keyword_frequencies :=
         Dict.update str_eqb []
           (Dict.update Z.eqb 0%Z (fun n => n + m)%Z year)
           keyword (keyword_frequencies a);
       kw_songs_processed := kw_songs_processed a;
       total_matches := (total_matches a + m)%Z |}
  else a.

(** One iteration of [for index, row in df.iterrows()] in
    [analyze_keywords]. *)
Definition process_keyword_row (keywords : list str)
    (a : keyword_analyzer) (r : row) : keyword_analyzer :=
  match read_year (row_year r) with
  | None => a
  | Some year =>
      let lyrics := read_lyrics (row_lyrics r) in
      if not_year year || null lyrics then a
      else
        match year with
        | None => a
        | Some y =>
            let vocab_words := extract_vocabulary lyrics in
            if null vocab_words then a
            else
              kw_song_done (fold_left (count_keyword y vocab_words) keywords a)
        end
  end.

Definition analyze_keywords (rows : list row) (keywords : list str)
    (a : keyword_analyzer) : keyword_analyzer :=
  fold_left (process_keyword_row keywords) rows a.

End FixedKeywords.

(** [generate_frequency_data()] *)
Definition generate_frequency_data (a : keyword_analyzer)
  : list (str * list (Z * Z)) :=
  map (fun kv => (fst kv, sorted pair_leb (snd kv))) (keyword_frequencies a).

(* ================================================================== *)
(** ** Sums of the tables *)

Definition counter_total (c : counter) : Z :=
  fold_right Z.add 0%Z (map snd c).

Definition table_total (t : list (Z * counter)) : Z :=
  fold_right Z.add 0%Z (map (fun yc => counter_total (snd yc)) t).

Definition years_total (yf : list (Z * Z)) : Z :=
  fold_right Z.add 0%Z (map snd yf).

Definition keyword_table_total (t : list (str * list (Z * Z))) : Z :=
  fold_right Z.add 0%Z (map (fun kv => years_total (snd kv)) t).

(* ================================================================== *)
(** ** A concrete character database and oracle, for closed examples *)

(** Agrees with CPython on ASCII; above ASCII no character is alphanumeric
    and [lower] changes nothing. *)
Definition ascii_unicode : Unicode :=
  {| isalnum := ascii_isalnum;
     lower := ascii_lower;
     isalnum_ascii := fun c _ => eq_refl;
     lower_ascii := fun s _ => eq_refl |}.

Fixpoint pairs (s : str) : list str :=
  match s with
  | a :: b :: s' => [a; b] :: pairs s'
  | _ => match s with [] => [] | _ => [s] end
  end.

(** An oracle that cuts its input into segments of two characters. *)
Definition pair_segmenter : Segmenter := {| lcut := pairs |}.

(* ================================================================== *)
(** ** The vocabulary of the specification *)

(** The English-word pattern: every character is an ASCII letter, an ASCII
    digit or one of the eight marks, and there is at least one. *)
Definition pattern_char (c : char) : Prop :=
  (97 <= c <= 122 \/ 65 <= c <= 90 \/ 48 <= c <= 57 \/
   In c [39; 34; 46; 33; 63; 45; 58; 59])%N.

Definition matches_english_pattern (w : str) : Prop :=
  w <> [] /\ Forall pattern_char w.

(** The first character lies in U+4E00..U+9FFF. *)
Definition starts_chinese (w : str) : Prop :=
  exists c r, w = c :: r /\ (0x4e00 <= c <= 0x9fff)%N.

(** The tokens between spaces, each stripped of the eight marks at both
    ends and then lower-cased, those shorter than two characters dropped. *)
Definition trimmed_lowercase_tokens (text : str) : list str :=
  filter (fun w => 2 <=? length w)
    (map (fun token =>
            ascii_lower
              (strip (fun c => mem c [39; 34; 46; 33; 63; 45; 58; 59]%N)
                 token))
       (split (N.eqb 32) text)).

(** How many times [w] occurs in [ws]. *)
Definition occurrences (w : str) (ws : list str) : Z :=
  Z.of_nat (count_occ (list_eq_dec N.eq_dec) ws w).

(** The rows the analysis passes over: the year is missing, is not a
    number or is 0, or the lyrics are missing or empty. *)
Definition row_skipped (r : row) : Prop :=
  row_year r = YearMissing \/ row_year r = YearInvalid \/
  row_year r = YearInt 0 \/
  row_lyrics r = None \/ row_lyrics r = Some [].

(** The shape of a keyword table: no keyword and no year twice, no count
    of zero or less. *)
Definition years_ok (yf : list (Z * Z)) : Prop :=
  NoDup (Dict.keys yf) /\ Forall (fun yc => (0 < snd yc)%Z) yf.

Definition keyword_table_ok (t : list (str * list (Z * Z))) : Prop :=
  NoDup (Dict.keys t) /\ Forall (fun kv => years_ok (snd kv)) t.

(* ================================================================== *)
(** ** More vocabulary of the specification *)

(** A word the filter loop lets through. *)
Definition accepted_word (w : str) : Prop :=
  2 <= length w /\ (matches_english_pattern w \/ starts_chinese w).

(** What is left of the tokens of an ASCII text: each token stripped of
    the nine characters of the punctuation literal at both ends and
    lower-cased, kept when it has two characters or more, all of them
    letters, digits or one of the eight marks. *)
Definition ascii_text_vocabulary (text : str) : list str :=
  filter (fun w => (2 <=? length w) && forallb english_class w)
    (map (fun token =>
            ascii_lower (strip (fun c => mem c punctuation_literal) token))
       (split isspace text)).

(* ================================================================== *)
(** ** Statistics of the full-vocabulary analyzer *)

(** [min(xs)] and [max(xs)] for a sequence of integers that is not empty,
    given as its first element and the rest. *)
Definition py_min (x : Z) (l : list Z) : Z := fold_left Z.min l x.
Definition py_max (x : Z) (l : list Z) : Z := fold_left Z.max l x.

(** [{'start': min(self.vocab_by_year.keys()),
      'end': max(self.vocab_by_year.keys())}], present when the table is
    not empty. *)
Definition year_range (t : list (Z * counter)) : option (Z * Z) :=
  match Dict.keys t with
  | [] => None
  | y :: ys => Some (py_min y ys, py_max y ys)
  end.

Record vocabulary_stats : Type := {
  vs_total_years : Z;
  vs_total_unique_words : Z;
  vs_total_word_occurrences : Z;
  vs_songs_processed : Z;
  vs_year_range : option (Z * Z)
}.

(** [get_vocabulary_stats()] *)
Definition get_vocabulary_stats (a : analyzer) : vocabulary_stats :=
  {| vs_total_years := Z.of_nat (length (vocab_by_year a));
     vs_total_unique_words :=
       fold_right Z.add 0%Z
         (map (fun yc => Z.of_nat (length (snd yc))) (vocab_by_year a));
     vs_total_word_occurrences :=
       fold_right Z.add 0%Z
         (map (fun yc => fold_right Z.add 0%Z (map snd (snd yc)))
            (vocab_by_year a));
     vs_songs_processed := songs_processed a;
     vs_year_range := year_range (vocab_by_year a) |}.

(** The shape of a year-frequency table: no year twice, no year 0, and in
    each counter at least one word, no word twice, accepted words only and
    counts of 1 or more. *)
Definition counter_ok (c : counter) : Prop :=
  c <> [] /\ NoDup (Dict.keys c) /\
  Forall (fun wc => accepted_word (fst wc) /\ (1 <= snd wc)%Z) c.

Definition table_ok (t : list (Z * counter)) : Prop :=
  NoDup (Dict.keys t) /\ ~ In 0%Z (Dict.keys t) /\
  Forall (fun yc => counter_ok (snd yc)) t.

(** The state of the analyzer between two rows. *)
Definition analyzer_ok (a : analyzer) : Prop :=
  table_ok (vocab_by_year a) /\
  (Z.of_nat (length (vocab_by_year a)) <= songs_processed a)%Z /\
  (songs_processed a <= total_vocab_count a)%Z /\
  (0 < songs_processed a -> vocab_by_year a <> [])%Z.

Section Contributions.

Context {U : Unicode} {J : Segmenter}.

(** The year and the words of a row that is not passed over. *)
Definition row_words (r : row) : option (Z * list str) :=
  match row_year r, row_lyrics r with
  | YearInt y, Some lyrics =>
      if (y =? 0)%Z || null lyrics then None
      else Some (y, extract_vocabulary lyrics)
  | _, _ => None
  end.

(** What a row adds to the entry of the year [y] and the word [w]. *)
Definition row_count (y : Z) (w : str) (r : row) : Z :=
  match row_words r with
  | Some (y', ws) => if (y =? y')%Z then occurrences w ws else 0%Z
  | None => 0%Z
  end.

(** What a row adds to the entry of the keyword [k] and the year [y], for
    the keyword list [ks]. *)
Definition row_keyword_count (ks : list str) (k : str) (y : Z) (r : row)
  : Z :=
  match row_words r with
  | Some (y', ws) =>
      if (y =? y')%Z then (occurrences k ks * matches k ws)%Z else 0%Z
  | None => 0%Z
  end.

End Contributions.

Section RowTotals.

Context {U : Unicode} {J : Segmenter}.

(** The number of words a row adds to the total counter. *)
Definition row_total (r : row) : Z :=
  match row_words r with
  | Some (_, ws) => Z.of_nat (length ws)
  | None => 0%Z
  end.

(** 1 when the row counts as a processed song, 0 otherwise. *)
Definition row_song (r : row) : Z :=
  match row_words r with
  | Some (_, ws) => if null ws then 0%Z else 1%Z
  | None => 0%Z
  end.

End RowTotals.

(* ================================================================== *)
(** ** Statistics of the fixed-keyword analyzer *)

(** One value of [keyword_stats] in [get_keyword_stats]: the total
    frequency, the number of active years and the range of the years of a
    series that is not empty.  The field [average_per_year], a rounded
    floating-point quotient, is left out. *)
Record keyword_detail : Type := {
  kd_total_frequency : Z;
  kd_years_active : Z;
  kd_year_range : Z * Z
}.

(** The body of [if freq_tuples:] in [get_keyword_stats]; [None] when the
    series is empty and the keyword gets no entry. *)
Definition keyword_detail_of (freq_tuples : list (Z * Z))
  : option keyword_detail :=
  match map fst freq_tuples with
  | [] => None
  | y :: ys =>
      Some {| kd_total_frequency :=
                fold_right Z.add 0%Z (map snd freq_tuples);
              kd_years_active := Z.of_nat (length freq_tuples);
              kd_year_range := (py_min y ys, py_max y ys) |}
  end.

Record keyword_stats : Type := {
  ks_total_keywords : Z;
  ks_keywords_with_data : Z;
  ks_total_matches : Z;
  ks_songs_processed : Z;
  ks_keyword_details : list (str * keyword_detail)
}.

(** [get_keyword_stats()] *)
Definition get_keyword_stats (a : keyword_analyzer) : keyword_stats :=
  let frequency_data := generate_frequency_data a in
  {| ks_total_keywords := Z.of_nat (length frequency_data);
     ks_keywords_with_data :=
       Z.of_nat
         (length (filter (fun kv => negb (null (snd kv))) frequency_data));
     ks_total_matches := total_matches a;
     ks_songs_processed := kw_songs_processed a;
     ks_keyword_details :=
       flat_map
         (fun kv =>
            match keyword_detail_of (snd kv) with
            | Some detail => [(fst kv, detail)]
            | None => []
            end)
         frequency_data |}.

(** [self.stats['total_years']] as [analyze_keywords] sets it when the loop
    ends: the number of distinct years over all the keywords. *)
Definition keyword_total_years (a : keyword_analyzer) : Z :=
  Z.of_nat
    (length
       (nodup Z.eq_dec
          (flat_map (fun kv => Dict.keys (snd kv))
             (keyword_frequencies a)))).

(** The shape of a keyword table with respect to the keyword list: every
    keyword of the table is in the list, has at least one year, and has no
    year 0. *)
Definition keyword_table_shape (ks : list str)
    (t : list (str * list (Z * Z))) : Prop :=
  Forall (fun kv => In (fst kv) ks /\ snd kv <> [] /\
                    ~ In 0%Z (Dict.keys (snd kv))) t.

Section KeywordContributions.

Context {U : Unicode} {J : Segmenter}.

(** What a row adds to [total_matches], for the keyword list [ks]. *)
Definition row_matches (ks : list str) (r : row) : Z :=
  match row_words r with
  | Some (_, ws) => fold_right Z.add 0%Z (map (fun k => matches k ws) ks)
  | None => 0%Z
  end.

(** The sum of the counts of the words of a counter that are the keyword
    [k] up to case. *)
Definition matching_total (k : str) (c : counter) : Z :=
  fold_right Z.add 0%Z
    (map (fun wn =>
            if str_eqb (lower (fst wn)) (lower k) then snd wn else 0%Z) c).

End KeywordContributions.

(* ================================================================== *)
(** ** The summary of the fixed-keyword analyzer *)

(** What [print_summary] prints for one keyword: the series with its
    total, the line that says no occurrences were found, or the line that
    says no data is available. *)
Inductive summary_entry : Type :=
| FrequencyByYear (freq_tuples : list (Z * Z)) (total_freq : Z)
| NoOccurrences
| NoData.

(** The loop [for keyword in (keywords or list(frequency_data.keys()))] of
    [print_summary]; a missing keyword list is the empty list. *)
Definition print_summary (keywords : list str) (a : keyword_analyzer)
  : list (str * summary_entry) :=
  let frequency_data := generate_frequency_data a in
  map (fun keyword =>
         (keyword,
          if existsb (str_eqb keyword) (Dict.keys frequency_data) then
            let freq_tuples := Dict.get str_eqb [] keyword frequency_data in
            if null freq_tuples then NoOccurrences
            else FrequencyByYear freq_tuples
                   (fold_right Z.add 0%Z (map snd freq_tuples))
          else NoData))
      (if null keywords then Dict.keys frequency_data else keywords).

(* ================================================================== *)
(** ** Latin-eligible characters in the words of the specification *)

Section EightMarks.

Context {U : Unicode}.

(** Alphanumeric or one of the eight marks, and not Chinese. *)
Definition eight_mark_eligible (c : char) : bool :=
  (isalnum c || mem c regex_punctuation) && negb (is_chinese_character c).

End EightMarks.

(* ================================================================== *)
(** ** Example data *)

Module Ex.

Definition rap : str := [114; 97; 112]%N.
Definition RAP : str := [82; 65; 80]%N.
Definition flow : str := [102; 108; 111; 119]%N.
Definition beat : str := [98; 101; 97; 116]%N.
Definition love : str := [108; 111; 118; 101]%N.
Definition yes : str := [121; 101; 115]%N.
Definition hip_hop : str := [104; 105; 112; 45; 104; 111; 112]%N.
Definition ab : str := [97; 98]%N.
Definition cd : str := [99; 100]%N.

(** The characters U+6211 U+7231 U+4F60. *)
Definition wo_ai_ni : str := [25105; 29233; 20320]%N.
Definition wo_ai : str := [25105; 29233]%N.

(** [wo_ai_ni] followed by Rap, one token. *)
Definition mixed_token : str := wo_ai_ni ++ [82; 97; 112]%N.

(** yo, a space, [mixed_token]. *)
Definition mixed_text : str := [121; 111; 32]%N ++ mixed_token.

(** I, love, [wo_ai_ni], and rap followed by an at sign, between spaces. *)
Definition filtered_text : str :=
  [73; 32]%N ++ love ++ [32]%N ++ wo_ai_ni ++ [32]%N ++ rap ++ [64]%N.

(** Yes followed by an exclamation mark, hip-hop, a, and rap between
    apostrophes, separated by spaces. *)
Definition ascii_text : str :=
  [89; 101; 115; 33; 32]%N ++ hip_hop ++ [32; 97; 32; 39]%N ++ rap ++ [39]%N.

Definition rap_flow_rap : str := rap ++ [32]%N ++ flow ++ [32]%N ++ rap.
Definition flow_flow_beat : str := flow ++ [32]%N ++ flow ++ [32]%N ++ beat.
Definition ab_cd : str := ab ++ [32]%N ++ cd.

Definition song (year : Z) (lyrics : str) : row :=
  {| row_year := YearInt year; row_lyrics := Some lyrics |}.

Definition songs : list row :=
  [song 2020 rap_flow_rap; song 2019 flow_flow_beat; song 2020 flow].

Definition row_without_year : row :=
  {| row_year := YearMissing; row_lyrics := Some rap |}.

End Ex.

(* ================================================================== *)
(** ** More example data *)

Module Ex2.

(** An at sign, a space and two hash signs. *)
Definition symbols : str := [64; 32; 35; 35]%N.

(** A space, rap and a newline. *)
Definition padded_rap : str := [32%N] ++ Ex.rap ++ [10%N].

(** Five Chinese characters, one token. *)
Definition chinese_token : str := Ex.wo_ai_ni ++ Ex.wo_ai.

(** U+4F60 U+6211. *)
Definition ni_wo : str := [20320; 25105]%N.

(** rap followed by an at sign, a backslash followed by ab, and Yes
    followed by an exclamation mark, between spaces. *)
Definition ascii_mix : str :=
  Ex.rap ++ [64; 32; 92]%N ++ Ex.ab ++ [32; 89; 101; 115; 33]%N.

(** ab followed by a newline. *)
Definition ab_newline : str := Ex.ab ++ [10%N].

Definition at_sign_song : row := Ex.song 2020 [64%N].

Definition rap_song : row := Ex.song 2020 Ex.rap.

Definition keywords : list str := [Ex.flow; Ex.RAP].

End Ex2.

(* ================================================================== *)
(** ** A mixed token with an English part of one letter *)

Module Ex3.

(** The characters U+4F60 U+597D. *)
Definition ni_hao : str := [20320; 22909]%N.

(** [ni_hao] followed by the letter A, one token. *)
Definition ni_hao_A : str := ni_hao ++ [65%N].

(** The letter a. *)
Definition a : str := [97%N].

End Ex3.

(* ================================================================== *)
(** * Properties *)

(** ** Stripping and splitting *)

Lemma null_true_iff (A : Type) (l : list A) : null l = true <-> l = [].
Proof. destruct l; simpl; split; congruence. Qed.

Lemma null_false_iff (A : Type) (l : list A) : null l = false <-> l <> [].
Proof. destruct l; simpl; split; congruence. Qed.

Lemma lstrip_id p (s : str) :
  forallb (fun c => negb (p c)) s = true -> lstrip p s = s.
Proof.
  destruct s as [|c s]; simpl; [reflexivity|].
  intros H. apply andb_true_iff in H as [H _].
  destruct (p c); [discriminate | reflexivity].
Qed.

Lemma rstrip_id p (s : str) :
  forallb (fun c => negb (p c)) s = true -> rstrip p s = s.
Proof.
  induction s as [|c s IH]; simpl; [reflexivity|].
  intros H. apply andb_true_iff in H as [Hc Hs].
  rewrite (IH Hs). destruct (p c); [discriminate | reflexivity].
Qed.

Lemma strip_id p (s : str) :
  forallb (fun c => negb (p c)) s = true -> strip p s = s.
Proof.
  intros H. unfold strip. rewrite (lstrip_id p s H). now apply rstrip_id.
Qed.

Lemma lstrip_ext p q (s : str) :
  (forall c, In c s -> p c = q c) -> lstrip p s = lstrip q s.
Proof.
  induction s as [|c s IH]; simpl; intros H; [reflexivity|].
  rewrite <- (H c (or_introl eq_refl)).
  destruct (p c); [apply IH; auto | reflexivity].
Qed.

Lemma rstrip_ext p q (s : str) :
  (forall c, In c s -> p c = q c) -> rstrip p s = rstrip q s.
Proof.
  induction s as [|c s IH]; simpl; intros H; [reflexivity|].
  rewrite <- (H c (or_introl eq_refl)), IH by auto. reflexivity.
Qed.

Lemma lstrip_incl p (s : str) c : In c (lstrip p s) -> In c s.
Proof.
  induction s as [|a s IH]; simpl; [tauto|].
  destruct (p a); simpl; auto.
Qed.

Lemma rstrip_incl p (s : str) c : In c (rstrip p s) -> In c s.
Proof.
  revert c. induction s as [|a s IH]; simpl; [tauto|].
  intros c. destruct (p a && null (rstrip p s)); simpl; [tauto|].
  intros [H|H]; auto.
Qed.

Lemma strip_incl p (s : str) c : In c (strip p s) -> In c s.
Proof. intros H. eapply lstrip_incl, rstrip_incl, H. Qed.

Lemma strip_ext p q (s : str) :
  (forall c, In c s -> p c = q c) -> strip p s = strip q s.
Proof.
  intros H. unfold strip. rewrite (lstrip_ext p q s H).
  apply rstrip_ext. intros c Hc. apply H.
  rewrite <- (lstrip_ext p q s H) in Hc. eapply lstrip_incl, Hc.
Qed.

(** What [rstrip] leaves does not end with a stripped character. *)
Lemma rstrip_last p (s : str) d :
  rstrip p s <> [] -> p (last (rstrip p s) d) = false.
Proof.
  induction s as [|c s IH]; simpl; [congruence|].
  destruct (p c) eqn:Hc; simpl.
  - destruct (rstrip p s) as [|b r] eqn:Hr; simpl.
    + intros H. now contradiction H.
    + intros _. apply IH. congruence.
  - destruct (rstrip p s) as [|b r] eqn:Hr; simpl.
    + intros _. exact Hc.
    + intros _. apply IH. congruence.
Qed.

Lemma strip_last p (s : str) d :
  strip p s <> [] -> p (last (strip p s) d) = false.
Proof. apply rstrip_last. Qed.

Lemma split_aux_ext p q cur (s : str) :
  (forall c, In c s -> p c = q c) -> split_aux p cur s = split_aux q cur s.
Proof.
  revert cur. induction s as [|c s IH]; simpl; intros cur H; [reflexivity|].
  rewrite <- (H c (or_introl eq_refl)).
  destruct (p c); rewrite IH by auto; reflexivity.
Qed.

Lemma split_aux_lstrip p cur (s : str) :
  flush cur ++ split_aux p [] (lstrip p s) = split_aux p cur s \/ cur <> [].
Proof.
  destruct cur; [left|right; congruence]. simpl.
  induction s as [|c s IH]; simpl; [reflexivity|].
  destruct (p c) eqn:Hc; simpl; [exact IH | now rewrite Hc].
Qed.

Lemma split_lstrip p (s : str) : split p (lstrip p s) = split p s.
Proof.
  unfold split. destruct (split_aux_lstrip p [] s) as [H|H]; [exact H|].
  congruence.
Qed.

Lemma split_aux_rstrip p cur (s : str) :
  split_aux p cur (rstrip p s) = split_aux p cur s.
Proof.
  revert cur. induction s as [|c s IH]; simpl; intros cur; [reflexivity|].
  destruct (p c) eqn:Hc; simpl.
  - destruct (null (rstrip p s)) eqn:Hn; simpl.
    + apply null_true_iff in Hn. rewrite <- (IH []), Hn. simpl.
      now rewrite app_nil_r.
    + rewrite Hc. now rewrite IH.
  - rewrite Hc. apply IH.
Qed.

Lemma split_strip p (s : str) : split p (strip p s) = split p s.
Proof.
  unfold strip, split. rewrite split_aux_rstrip. apply split_lstrip.
Qed.

(** A token of [split] is not empty and made of characters outside [p]. *)
Lemma split_aux_token p cur (s t : str) :
  In t (split_aux p cur s) ->
  t <> [] /\ forall c, In c t -> In c cur \/ (In c s /\ p c = false).
Proof.
  revert cur. induction s as [|a s IH]; simpl; intros cur H.
  - destruct cur; simpl in H; [tauto|]. destruct H as [<-|[]].
    split; [congruence | auto].
  - destruct (p a) eqn:Ha.
    + apply in_app_or in H as [H|H].
      * destruct cur; simpl in H; [tauto|]. destruct H as [<-|[]].
        split; [congruence | auto].
      * destruct (IH [] H) as [Hne Hc]. split; [exact Hne|].
        intros c Hin. destruct (Hc c Hin) as [[]|[H1 H2]]; auto.
    + destruct (IH _ H) as [Hne Hc]. split; [exact Hne|].
      intros c Hin. destruct (Hc c Hin) as [H1|[H1 H2]]; auto.
      apply in_app_or in H1 as [H1|[<-|[]]]; auto.
Qed.

Lemma split_token p (s t : str) :
  In t (split p s) ->
  t <> [] /\ forallb (fun c => negb (p c)) t = true /\
  forall c, In c t -> In c s.
Proof.
  intros H. destruct (split_aux_token p [] s t H) as [Hne Hc].
  split; [exact Hne|]. split.
  - apply forallb_forall. intros c Hin.
    destruct (Hc c Hin) as [[]|[_ ->]]. reflexivity.
  - intros c Hin. destruct (Hc c Hin) as [[]|[? _]]. assumption.
Qed.

(** ** Characters *)

Ltac bool_prop H :=
  repeat first
    [ rewrite andb_true_iff in H | rewrite orb_true_iff in H
    | rewrite N.leb_le in H | rewrite N.eqb_eq in H
    | rewrite N.ltb_lt in H ].

Lemma ascii_enum (P : char -> bool) :
  forallb P (map N.of_nat (seq 0 128)) = true ->
  forall c, is_ascii c = true -> P c = true.
Proof.
  intros H c Hc. rewrite forallb_forall in H. apply H.
  unfold is_ascii in Hc. apply N.ltb_lt in Hc.
  apply in_map_iff. exists (N.to_nat c). split; [apply N2Nat.id|].
  apply in_seq. lia.
Qed.

Lemma english_class_ascii c : english_class c = true -> is_ascii c = true.
Proof.
  unfold english_class, ascii_isalnum, mem, regex_punctuation, is_ascii.
  simpl. intros H. bool_prop H. apply N.ltb_lt. lia.
Qed.

Lemma is_chinese_character_range c :
  is_chinese_character c = true <-> (0x4e00 <= c /\ c <= 0x9fff)%N.
Proof.
  unfold is_chinese_character. now rewrite andb_true_iff, !N.leb_le.
Qed.

Lemma mem_In c (s : str) : mem c s = true <-> In c s.
Proof.
  unfold mem. rewrite existsb_exists. split.
  - intros [x [Hx He]]. apply N.eqb_eq in He. now subst.
  - intros H. exists c. split; [exact H | apply N.eqb_refl].
Qed.

Lemma english_class_facts c :
  english_class c = true ->
  isspace c = false /\ N.eqb 32 c = false /\
  is_chinese_character c = false /\
  mem c punctuation_literal = mem c regex_punctuation /\
  (ascii_isalnum c || mem c punctuation_literal) = true /\
  english_class (ascii_lower_char c) = true.
Proof.
  intros H. pose proof (english_class_ascii c H) as Ha.
  pose proof
    (ascii_enum
       (fun c =>
          implb (english_class c)
            (negb (isspace c) && negb (N.eqb 32 c) &&
             negb (is_chinese_character c) &&
             Bool.eqb (mem c punctuation_literal) (mem c regex_punctuation) &&
             (ascii_isalnum c || mem c punctuation_literal) &&
             english_class (ascii_lower_char c)))
       eq_refl c Ha) as E.
  cbv beta in E. rewrite H in E. simpl in E.
  repeat (apply andb_true_iff in E as [E ?]).
  repeat match goal with
         | X : negb _ = true |- _ => apply negb_true_iff in X
         | X : Bool.eqb _ _ = true |- _ => apply Bool.eqb_prop in X
         end.
  auto 10.
Qed.

Lemma existsb_filter_nonempty (A : Type) (p : A -> bool) (l : list A) :
  existsb p l = true -> filter p l <> [].
Proof.
  induction l as [|a l IH]; simpl; [discriminate|].
  destruct (p a); simpl; [discriminate | exact IH].
Qed.

(** [$] and the final newline: on a word that does not end with a newline,
    [is_english_word] is the test that every character is in the class. *)
Lemma is_english_word_class (w : str) :
  is_english_word w = true -> last w 0%N <> 10%N ->
  forallb english_class w = true.
Proof.
  induction w as [|c w IH]; [discriminate|].
  cbn [is_english_word forallb]. intros H Hl.
  apply andb_true_iff in H as [Hc H]. rewrite Hc. simpl.
  destruct w as [|b w]; [reflexivity|].
  simpl null in H. simpl orb in H.
  apply orb_true_iff in H as [H|H].
  - destruct w; [|discriminate]. simpl in H, Hl.
    apply N.eqb_eq in H. contradiction.
  - apply IH; [exact H | exact Hl].
Qed.

Lemma class_is_english_word (w : str) :
  w <> [] -> forallb english_class w = true -> is_english_word w = true.
Proof.
  induction w as [|c w IH]; [congruence|]. intros _ H.
  cbn [is_english_word forallb] in *. apply andb_true_iff in H as [Hc H].
  rewrite Hc. simpl. destruct w as [|b w]; [reflexivity|].
  rewrite IH by (congruence || assumption). apply orb_true_r.
Qed.

(** ** The tokenizer *)

Section VocabularyFacts.

Context {U : Unicode} {J : Segmenter}.

Lemma vocabulary_strip (text : str) :
  vocabulary (strip isspace text) = vocabulary text.
Proof. unfold vocabulary. now rewrite split_strip. Qed.

(** The two early returns of [extract_vocabulary] and the [strip] before
    [split] change nothing: the result is the filter applied to the units of
    the tokens of [text]. *)
Lemma extract_vocabulary_eq (text : str) :
  extract_vocabulary text = vocabulary_filter (vocabulary text).
Proof.
  unfold extract_vocabulary. destruct (null text) eqn:Hn.
  - apply null_true_iff in Hn. now subst.
  - destruct (null (strip isspace text)) eqn:Hs.
    + apply null_true_iff in Hs. rewrite <- vocabulary_strip, Hs. reflexivity.
    + now rewrite vocabulary_strip.
Qed.

(** [token.strip()] and [if not token] do nothing on a token of [split]. *)
Lemma token_strip (text token : str) :
  In token (split isspace text) ->
  strip isspace token = token /\ null token = false.
Proof.
  intros H. apply split_token in H as (Hne & Hws & _). split.
  - now apply strip_id.
  - now apply null_false_iff.
Qed.

(** The units a token with a Chinese character and a character the
    tokenizer tests as Latin-eligible appends to the vocabulary. *)
Lemma token_units_mixed (text token : str) :
  In token (split isspace text) ->
  existsb is_chinese_character token = true ->
  existsb latin_eligible token = true ->
  english_part token <> [] /\
  token_units token =
    filter long_enough (lcut (chinese_part token)) ++
    [lower (english_part token)].
Proof.
  intros Hin Hc He.
  destruct (token_strip text token Hin) as [Hs Hn].
  pose proof (existsb_filter_nonempty _ _ Hc) as Hcn.
  pose proof (existsb_filter_nonempty _ _ He) as Hen.
  fold (chinese_part token) in Hcn. fold (english_part token) in Hen.
  split; [exact Hen|].
  apply null_false_iff in Hcn, Hen.
  unfold token_units. rewrite Hs, Hn, Hc, He, Hcn, Hen. reflexivity.
Qed.

(** C2, at the backslash.  The test of [extract_vocabulary] accepts the
    backslash, which is neither Chinese, nor alphanumeric, nor one of the
    eight punctuation marks of the character class of [is_english_word]. *)
Theorem backslash_latin_eligible :
  latin_eligible 92%N = true /\
  is_chinese_character 92%N = false /\
  isalnum 92%N = false /\
  mem 92%N regex_punctuation = false.
Proof.
  unfold latin_eligible. rewrite (isalnum_ascii 92%N eq_refl).
  repeat split; reflexivity.
Qed.

(** Every other character is classified as the eight marks prescribe. *)
Lemma latin_eligible_except_backslash (c : char) :
  c <> 92%N ->
  (latin_eligible c = true <->
   is_chinese_character c = false /\
   (isalnum c = true \/ In c regex_punctuation)).
Proof.
  intros Hc. unfold latin_eligible.
  rewrite andb_true_iff, orb_true_iff, negb_true_iff, !mem_In.
  unfold punctuation_literal, regex_punctuation. simpl. intuition congruence.
Qed.

Lemma english_class_pattern c : english_class c = true <-> pattern_char c.
Proof.
  unfold english_class, pattern_char, ascii_isalnum.
  rewrite orb_true_iff, mem_In. unfold regex_punctuation.
  rewrite !orb_true_iff, !andb_true_iff, !N.leb_le. tauto.
Qed.

Lemma forallb_class_pattern (w : str) :
  forallb english_class w = true <-> Forall pattern_char w.
Proof.
  rewrite forallb_forall, Forall_forall.
  split; intros H c Hc; apply english_class_pattern, H, Hc.
Qed.

Lemma first_is_chinese_starts (w : str) :
  first_is_chinese w = true <-> starts_chinese w.
Proof.
  unfold starts_chinese. destruct w as [|c r]; simpl.
  - split; [discriminate|]. intros (c & r & H & _). discriminate.
  - rewrite is_chinese_character_range. split.
    + intros H. now exists c, r.
    + intros (c' & r' & E & H). now inversion E; subst.
Qed.

(** After [word.strip()] the regular expression accepts a word exactly when
    the word matches the pattern. *)
Lemma stripped_english_word (u : str) :
  is_english_word (strip isspace u) = true <->
  matches_english_pattern (strip isspace u).
Proof.
  unfold matches_english_pattern. rewrite <- forallb_class_pattern. split.
  - intros H. assert (Hne : strip isspace u <> []).
    { intros E. rewrite E in H. discriminate. }
    split; [exact Hne|]. apply is_english_word_class; [exact H|].
    pose proof (strip_last isspace u 0%N Hne) as Hl.
    intros E. rewrite E in Hl. discriminate.
  - intros [Hne H]. now apply class_is_english_word.
Qed.

(** What the filter loop does with one unit. *)
Lemma filter_unit_spec (u : str) :
  let w := strip isspace u in
  (2 <= length w /\ (matches_english_pattern w \/ starts_chinese w) ->
   filter_unit u = [w]) /\
  (length w < 2 \/ (~ matches_english_pattern w /\ ~ starts_chinese w) ->
   filter_unit u = []).
Proof.
  intros w. unfold filter_unit. fold w. unfold long_enough.
  pose proof (stripped_english_word u) as He. fold w in He.
  pose proof (first_is_chinese_starts w) as Hc.
  destruct (Nat.leb_spec 2 (length w)) as [Hl|Hl].
  - destruct (is_english_word w) eqn:E1; destruct (first_is_chinese w) eqn:E2;
      simpl; split; intros H; try reflexivity;
      try (destruct H as [H|[H1 H2]]; [lia|]);
      try (exfalso; apply H1; apply He; reflexivity);
      try (exfalso; apply H2; apply Hc; reflexivity).
    destruct H as [_ [H|H]]; [apply He in H | apply Hc in H]; discriminate.
  - split; intros H; [lia | reflexivity].
Qed.

Lemma filter_unit_in (u w : str) :
  In w (filter_unit u) <->
  strip isspace u = w /\ 2 <= length w /\
  (matches_english_pattern w \/ starts_chinese w).
Proof.
  unfold filter_unit, long_enough.
  pose proof (stripped_english_word u) as He.
  pose proof (first_is_chinese_starts (strip isspace u)) as Hc.
  destruct (Nat.leb_spec 2 (length (strip isspace u))) as [Hl|Hl].
  - destruct (is_english_word (strip isspace u) ||
              first_is_chinese (strip isspace u)) eqn:E; simpl.
    + apply orb_true_iff in E. split.
      * intros [<-|[]]. intuition.
      * intros (<- & _). now left.
    + apply orb_false_iff in E as [E1 E2]. split; [tauto|].
      intros (<- & _ & [H|H]); [apply He in H | apply Hc in H]; congruence.
  - simpl. split; [tauto|]. intros (<- & H & _). lia.
Qed.

(** C4.  Every word [extract_vocabulary] returns has two code points or
    more and either matches the English-word pattern as a whole or starts
    with a character of U+4E00..U+9FFF; a unit of the vocabulary that, once
    stripped, is shorter or satisfies neither is rejected; the words
    returned are exactly the stripped units that pass. *)
Theorem extract_vocabulary_words (text : str) :
  (forall w, In w (extract_vocabulary text) ->
     2 <= length w /\ (matches_english_pattern w \/ starts_chinese w)) /\
  (forall u, In u (vocabulary text) ->
     length (strip isspace u) < 2 \/
     (~ matches_english_pattern (strip isspace u) /\
      ~ starts_chinese (strip isspace u)) ->
     filter_unit u = []) /\
  (forall w, In w (extract_vocabulary text) <->
     exists u, In u (vocabulary text) /\ strip isspace u = w /\
       2 <= length w /\ (matches_english_pattern w \/ starts_chinese w)) /\
  extract_vocabulary text = flat_map filter_unit (vocabulary text).
Proof.
  assert (Hin : forall w, In w (extract_vocabulary text) <->
     exists u, In u (vocabulary text) /\ strip isspace u = w /\
       2 <= length w /\ (matches_english_pattern w \/ starts_chinese w)).
  { intros w. rewrite extract_vocabulary_eq. unfold vocabulary_filter.
    rewrite in_flat_map. split; intros (u & Hu & H); exists u;
      (split; [exact Hu|]); now apply filter_unit_in. }
  split; [|split; [|split]].
  - intros w Hw. apply Hin in Hw as (u & _ & _ & H). exact H.
  - intros u _ H. now apply (proj2 (filter_unit_spec u)).
  - exact Hin.
  - apply extract_vocabulary_eq.
Qed.

(** ** Pure ASCII text *)

Lemma flat_map_filter_map (A B : Type) (g : A -> B) (p : B -> bool)
    (f : A -> list B) (l : list A) :
  (forall a, In a l -> f a = if p (g a) then [g a] else []) ->
  flat_map f l = filter p (map g l).
Proof.
  induction l as [|a l IH]; simpl; intros H; [reflexivity|].
  rewrite (H a (or_introl eq_refl)), IH by auto.
  destruct (p (g a)); reflexivity.
Qed.

Lemma flat_map_flat_map (A B C : Type) (f : B -> list C) (g : A -> list B)
    (l : list A) :
  flat_map f (flat_map g l) = flat_map (fun a => flat_map f (g a)) l.
Proof.
  induction l as [|a l IH]; simpl; [reflexivity|].
  now rewrite flat_map_app, IH.
Qed.

Lemma class_token_facts (t : str) :
  forallb english_class t = true ->
  forallb (fun c => negb (isspace c)) t = true /\
  forallb is_ascii t = true /\
  existsb is_chinese_character t = false /\
  (t <> [] -> existsb latin_eligible t = true) /\
  forallb english_class (ascii_lower t) = true.
Proof.
  induction t as [|c t IH]; simpl; intros H.
  - repeat split; congruence.
  - apply andb_true_iff in H as [Hc Ht].
    destruct (IH Ht) as (I1 & I2 & I3 & I4 & I5).
    destruct (english_class_facts c Hc) as (F1 & F2 & F3 & F4 & F5 & F6).
    pose proof (english_class_ascii c Hc) as Ha.
    rewrite F1, Ha, F3, I1, I2, I3, F6, I5. simpl.
    repeat split. intros _. unfold latin_eligible.
    now rewrite (isalnum_ascii c Ha), F5, F3.
Qed.

Lemma forallb_incl (p : char -> bool) (s t : str) :
  (forall c, In c s -> In c t) -> forallb p t = true -> forallb p s = true.
Proof.
  intros Hi H. rewrite forallb_forall in *. auto.
Qed.

(** The units of a token made of characters of the English class. *)
Lemma class_token_units (t : str) :
  t <> [] -> forallb english_class t = true ->
  let cleaned :=
    ascii_lower (strip (fun c => mem c regex_punctuation) t) in
  flat_map filter_unit (token_units t) =
    if long_enough cleaned then [cleaned] else [].
Proof.
  intros Hne Hcl cleaned.
  destruct (class_token_facts t Hcl) as (Hws & Has & Hch & Hen & _).
  assert (Hst : strip (fun c => mem c punctuation_literal) t =
                strip (fun c => mem c regex_punctuation) t).
  { apply strip_ext. intros c Hc. rewrite forallb_forall in Hcl.
    apply (english_class_facts c (Hcl c Hc)). }
  unfold token_units. rewrite (strip_id isspace t Hws).
  apply null_false_iff in Hne as Hn. rewrite Hn, Hch, (Hen Hne), Hst.
  cbn [andb]. subst cleaned.
  set (s := strip (fun c => mem c regex_punctuation) t).
  assert (Hs : forallb english_class s = true).
  { apply (forallb_incl english_class s t); [|exact Hcl].
    intros c. apply strip_incl. }
  destruct (class_token_facts s Hs) as (_ & Hsa & _ & _ & Hlo).
  rewrite (lower_ascii s Hsa). set (cleaned := ascii_lower s) in *.
  destruct (long_enough cleaned) eqn:Hl; [|reflexivity].
  cbn [flat_map]. rewrite app_nil_r.
  destruct (class_token_facts cleaned Hlo) as (Hcw & _).
  pose proof (proj1 (filter_unit_spec cleaned)) as Hf. cbv zeta in Hf.
  rewrite (strip_id isspace cleaned Hcw) in Hf. apply Hf.
  unfold long_enough in Hl. apply Nat.leb_le in Hl. split; [exact Hl|].
  left. split; [|now apply forallb_class_pattern].
  intros E. rewrite E in Hl. simpl in Hl. lia.
Qed.

(** C6.  On a text made of spaces and of characters of the English-word
    class, so of words of ASCII letters, digits and the eight marks
    separated by spaces, [extract_vocabulary] returns the tokens stripped of
    the marks at both ends and lower-cased, in the order of the text, those
    shorter than two characters dropped. *)
Theorem ascii_words_vocabulary (text : str) :
  (forall c, In c text -> c = 32%N \/ pattern_char c) ->
  extract_vocabulary text = trimmed_lowercase_tokens text.
Proof.
  intros H. rewrite extract_vocabulary_eq.
  unfold vocabulary_filter, vocabulary, trimmed_lowercase_tokens.
  rewrite flat_map_flat_map.
  assert (Hsp : split isspace text = split (N.eqb 32) text).
  { apply split_aux_ext. intros c Hc. destruct (H c Hc) as [->|Hp].
    - reflexivity.
    - apply english_class_pattern in Hp.
      destruct (english_class_facts c Hp) as (-> & -> & _). reflexivity. }
  rewrite Hsp. apply flat_map_filter_map. intros t Ht.
  apply split_token in Ht as (Hne & Hns & Hin).
  apply (class_token_units Hne).
  apply forallb_forall. intros c Hc.
  destruct (H c (Hin c Hc)) as [->|Hp].
  - rewrite forallb_forall in Hns. specialize (Hns _ Hc).
    rewrite N.eqb_refl in Hns. discriminate.
  - now apply english_class_pattern.
Qed.

End VocabularyFacts.

(** ** Dictionaries *)

Section DictFacts.

Variables K V : Type.
Variable eqb : K -> K -> bool.
Hypothesis eqb_eq : forall a b, eqb a b = true <-> a = b.
Variable d : V.

Lemma eqb_refl' k : eqb k k = true.
Proof. now apply eqb_eq. Qed.

Lemma eqb_neq a b : eqb a b = false <-> a <> b.
Proof.
  destruct (eqb a b) eqn:E.
  - apply eqb_eq in E. split; [discriminate | contradiction].
  - split; [|reflexivity]. intros _ H. apply eqb_eq in H. congruence.
Qed.

Lemma get_update f k k' (m : list (K * V)) :
  Dict.get eqb d k' (Dict.update eqb d f k m) =
  if eqb k' k then f (Dict.get eqb d k m) else Dict.get eqb d k' m.
Proof.
  induction m as [|[k0 v] m IH]; simpl.
  - reflexivity.
  - destruct (eqb k k0) eqn:E; simpl.
    + apply eqb_eq in E. subst k0. destruct (eqb k' k); reflexivity.
    + rewrite IH. destruct (eqb k' k0) eqn:E'; [|reflexivity].
      apply eqb_eq in E'. subst k0.
      destruct (eqb k' k) eqn:E2; [|reflexivity].
      apply eqb_eq in E2. subst k'. rewrite eqb_refl' in E. discriminate.
Qed.

Lemma keys_update f k (m : list (K * V)) :
  Dict.keys (Dict.update eqb d f k m) =
  if existsb (eqb k) (Dict.keys m) then Dict.keys m else Dict.keys m ++ [k].
Proof.
  induction m as [|[k0 v] m IH]; simpl; [reflexivity|].
  destruct (eqb k k0) eqn:E; simpl; [reflexivity|].
  unfold Dict.keys in *. rewrite IH.
  destruct (existsb (eqb k) (map fst m)); reflexivity.
Qed.

Lemma keys_update_NoDup f k (m : list (K * V)) :
  NoDup (Dict.keys m) -> NoDup (Dict.keys (Dict.update eqb d f k m)).
Proof.
  intros H. rewrite keys_update.
  destruct (existsb (eqb k) (Dict.keys m)) eqn:E; [exact H|].
  apply NoDup_app; [exact H | repeat constructor; simpl; tauto |].
  intros x Hx [Hk|[]]. subst x.
  assert (existsb (eqb k) (Dict.keys m) = true); [|congruence].
  apply existsb_exists. exists k. split; [exact Hx | apply eqb_refl'].
Qed.

Lemma in_get k v (m : list (K * V)) :
  NoDup (Dict.keys m) -> In (k, v) m -> Dict.get eqb d k m = v.
Proof.
  induction m as [|[k0 v0] m IH]; simpl; [tauto|].
  intros Hn [H|H].
  - inversion H; subst. now rewrite eqb_refl'.
  - inversion Hn as [|? ? Hk Hm]; subst.
    destruct (eqb k k0) eqn:E; [|now apply IH].
    apply eqb_eq in E. subst k0. exfalso. apply Hk.
    change k with (fst (k, v)). now apply in_map.
Qed.

Lemma get_in k (m : list (K * V)) :
  In k (Dict.keys m) -> In (k, Dict.get eqb d k m) m.
Proof.
  induction m as [|[k0 v0] m IH]; simpl; [tauto|].
  intros H. destruct (eqb k k0) eqn:E.
  - apply eqb_eq in E. subst. now left.
  - right. apply IH. destruct H as [H|H]; [|exact H].
    subst k0. rewrite eqb_refl' in E. discriminate.
Qed.

(** A property of the values that the update keeps holds in the updated
    dictionary. *)
Lemma update_Forall (P : V -> Prop) f k (m : list (K * V)) :
  P (f d) -> (forall v, P v -> P (f v)) ->
  Forall (fun kv => P (snd kv)) m ->
  Forall (fun kv => P (snd kv)) (Dict.update eqb d f k m).
Proof.
  intros Hd Hf. induction m as [|[k0 v] m IH]; simpl; intros H.
  - repeat constructor. exact Hd.
  - inversion H as [|? ? Hv Hm]; subst. simpl in Hv.
    destruct (eqb k k0); constructor; simpl; auto.
Qed.

(** The sum of a weight over the values moves by what the update adds to
    the value at [k]. *)
Lemma update_total (w : V -> Z) f k (m : list (K * V)) :
  w d = 0%Z ->
  fold_right Z.add 0%Z
    (map (fun kv => w (snd kv)) (Dict.update eqb d f k m)) =
  (fold_right Z.add 0%Z (map (fun kv => w (snd kv)) m)
   + (w (f (Dict.get eqb d k m)) - w (Dict.get eqb d k m)))%Z.
Proof.
  intros Hd. induction m as [|[k0 v] m IH]; simpl.
  - lia.
  - destruct (eqb k k0); simpl; [lia|]. rewrite IH. lia.
Qed.

End DictFacts.

Lemma str_eqb_eq (a b : str) : str_eqb a b = true <-> a = b.
Proof.
  unfold str_eqb. destruct (list_eq_dec N.eq_dec a b); split;
    congruence || auto.
Qed.

(** ** Sorting *)

Section SortingFacts.

Variable A : Type.
Variable leb : A -> A -> bool.
Hypothesis leb_total : forall x y, leb x y = false -> leb y x = true.

Let R (x y : A) : Prop := leb x y = true.

Lemma insert_sorted_perm x l : Permutation (insert_sorted leb x l) (x :: l).
Proof.
  induction l as [|y l IH]; simpl; [reflexivity|].
  destruct (leb x y); [reflexivity|].
  rewrite IH. apply perm_swap.
Qed.

Lemma sorted_perm l : Permutation (sorted leb l) l.
Proof.
  induction l as [|x l IH]; simpl; [reflexivity|].
  rewrite insert_sorted_perm. now constructor.
Qed.

Lemma insert_sorted_HdRel x y l :
  R y x -> HdRel R y l -> HdRel R y (insert_sorted leb x l).
Proof.
  intros Hyx H. destruct l as [|z l]; simpl; [now constructor|].
  destruct (leb x z); constructor; [exact Hyx|].
  now inversion H.
Qed.

Lemma insert_sorted_Sorted x l :
  Sorted R l -> Sorted R (insert_sorted leb x l).
Proof.
  induction l as [|y l IH]; simpl; intros H.
  - repeat constructor.
  - destruct (leb x y) eqn:E.
    + constructor; [exact H | now constructor].
    + inversion H; subst. constructor; [now apply IH|].
      apply insert_sorted_HdRel; [now apply leb_total | assumption].
Qed.

Lemma sorted_Sorted l : Sorted R (sorted leb l).
Proof.
  induction l as [|x l IH]; simpl; [constructor|].
  now apply insert_sorted_Sorted.
Qed.

(** Stability: among elements that tie, the order of the input is kept. *)
Lemma insert_sorted_stable (P : A -> bool) x l :
  (forall a b, P a = true -> P b = true -> leb a b = true) ->
  filter P (insert_sorted leb x l) = filter P (x :: l).
Proof.
  intros Htie. induction l as [|y l IH]; [reflexivity|].
  cbn [insert_sorted]. destruct (leb x y) eqn:E; [reflexivity|].
  cbn [filter] in *. rewrite IH.
  destruct (P x) eqn:Px; destruct (P y) eqn:Py; try reflexivity.
  rewrite (Htie x y Px Py) in E. discriminate.
Qed.

Lemma sorted_stable (P : A -> bool) l :
  (forall a b, P a = true -> P b = true -> leb a b = true) ->
  filter P (sorted leb l) = filter P l.
Proof.
  intros Htie. induction l as [|x l IH]; [reflexivity|].
  cbn [sorted fold_right]. fold (sorted leb l).
  rewrite insert_sorted_stable by exact Htie.
  cbn [filter]. now rewrite IH.
Qed.

End SortingFacts.

(** ** Full-vocabulary mode *)

Lemma fold_left_invariant (A B : Type) (P : A -> Prop) (f : A -> B -> A)
    (l : list B) (a : A) :
  P a -> (forall a x, P a -> P (f a x)) -> P (fold_left f l a).
Proof.
  intros Ha Hf. revert a Ha. induction l as [|x l IH]; simpl; auto.
Qed.

Lemma occurrences_cons (w x : str) (ws : list str) :
  occurrences w (x :: ws) =
  ((if str_eqb w x then 1 else 0) + occurrences w ws)%Z.
Proof.
  unfold occurrences, str_eqb. simpl.
  destruct (list_eq_dec N.eq_dec x w) as [E|E];
    destruct (list_eq_dec N.eq_dec w x) as [E'|E']; try congruence; lia.
Qed.

Lemma occurrences_nonneg (w : str) (ws : list str) :
  (0 <= occurrences w ws)%Z.
Proof. unfold occurrences. lia. Qed.

Lemma entry_count_word (y : Z) (a : analyzer) (w : str) y' w' :
  entry (count_word y a w) y' w' =
  (entry a y' w' + if (y' =? y)%Z && str_eqb w' w then 1 else 0)%Z.
Proof.
  unfold entry, count_word. simpl.
  rewrite (get_update Z.eqb Z.eqb_eq).
  destruct (y' =? y)%Z eqn:E; simpl; [|lia].
  apply Z.eqb_eq in E. subst y'.
  rewrite (get_update str_eqb str_eqb_eq).
  destruct (str_eqb w' w) eqn:E; [|lia].
  apply str_eqb_eq in E. subst w'. lia.
Qed.

Lemma entry_count_words (y : Z) (ws : list str) (a : analyzer) y' w' :
  entry (fold_left (count_word y) ws a) y' w' =
  (entry a y' w' + if (y' =? y)%Z then occurrences w' ws else 0)%Z.
Proof.
  revert a. induction ws as [|w ws IH]; intros a; simpl.
  - unfold occurrences. simpl. destruct (y' =? y)%Z; lia.
  - rewrite IH, entry_count_word, occurrences_cons.
    destruct (y' =? y)%Z; simpl; lia.
Qed.

Lemma total_count_words (y : Z) (ws : list str) (a : analyzer) :
  total_vocab_count (fold_left (count_word y) ws a) =
  (total_vocab_count a + Z.of_nat (length ws))%Z.
Proof.
  revert a. induction ws as [|w ws IH]; intros a; simpl fold_left.
  - simpl. lia.
  - rewrite IH. simpl length. simpl total_vocab_count. lia.
Qed.

Lemma counter_total_update (w : str) (c : counter) :
  counter_total (Dict.update str_eqb 0%Z (fun n => n + 1)%Z w c) =
  (counter_total c + 1)%Z.
Proof.
  unfold counter_total.
  pose proof (update_total str_eqb 0%Z (fun n : Z => n) (fun n => n + 1)%Z
                w c eq_refl) as H.
  cbv beta in H. change (fun kv : str * Z => snd kv) with (@snd str Z) in H.
  rewrite H. lia.
Qed.

Lemma table_total_count_word (y : Z) (a : analyzer) (w : str) :
  table_total (vocab_by_year (count_word y a w)) =
  (table_total (vocab_by_year a) + 1)%Z.
Proof.
  unfold table_total, count_word. simpl.
  rewrite (update_total Z.eqb [] counter_total) by reflexivity.
  rewrite counter_total_update.
  match goal with
  | |- (?x + _)%Z = (?y + 1)%Z => change y with x
  end.
  lia.
Qed.

Lemma entry_song_done a y w : entry (song_done a) y w = entry a y w.
Proof. reflexivity. Qed.

Section FullVocabularyFacts.

Context {U : Unicode} {J : Segmenter}.

Lemma process_row_skipped (a : analyzer) (r : row) :
  row_skipped r -> process_row a r = a.
Proof.
  unfold row_skipped, process_row. destruct r as [yc l]. simpl.
  intros [H|[H|[H|[H|H]]]]; subst; simpl; try reflexivity.
  - destruct yc as [|y|]; simpl; try reflexivity.
    destruct (y =? 0)%Z; reflexivity.
  - destruct yc as [|y|]; simpl; try reflexivity.
    destruct (y =? 0)%Z; reflexivity.
Qed.

Lemma process_row_counted (a : analyzer) (y : Z) (lyrics : str) :
  y <> 0%Z -> lyrics <> [] ->
  let r := {| row_year := YearInt y; row_lyrics := Some lyrics |} in
  let words := extract_vocabulary lyrics in
  (forall y' w,
     entry (process_row a r) y' w =
     (entry a y' w + if (y' =? y)%Z then occurrences w words else 0)%Z) /\
  total_vocab_count (process_row a r) =
    (total_vocab_count a + Z.of_nat (length words))%Z /\
  (table_total (vocab_by_year a) = total_vocab_count a ->
   table_total (vocab_by_year (process_row a r)) =
     total_vocab_count (process_row a r)) /\
  (NoDup (Dict.keys (vocab_by_year a)) ->
   NoDup (Dict.keys (vocab_by_year (process_row a r)))).
Proof.
  intros Hy Hl r words. unfold process_row. simpl.
  apply Z.eqb_neq in Hy. rewrite Hy. apply null_false_iff in Hl.
  rewrite Hl. simpl. fold words.
  destruct (null words) eqn:Hw.
  - apply null_true_iff in Hw. rewrite Hw. simpl.
    repeat split; auto; [|lia]. intros y' w. unfold occurrences. simpl.
    destruct (y' =? y)%Z; lia.
  - split; [|split; [|split]].
    + intros y' w. rewrite entry_song_done. apply entry_count_words.
    + simpl. apply total_count_words.
    + intros H0. simpl.
      apply (fold_left_invariant
               (fun a0 => table_total (vocab_by_year a0) =
                          total_vocab_count a0)); [exact H0|].
      intros a0 w H. rewrite table_total_count_word. simpl. lia.
    + intros H0. simpl.
      apply (fold_left_invariant
               (fun a0 => NoDup (Dict.keys (vocab_by_year a0))));
        [exact H0|].
      intros a0 w H. simpl.
      apply keys_update_NoDup; [exact Z.eqb_eq | exact H].
Qed.

(** A row is passed over or is counted. *)
Lemma row_cases (r : row) :
  row_skipped r \/
  exists (y : Z) (lyrics : str), y <> 0%Z /\ lyrics <> [] /\
    r = {| row_year := YearInt y; row_lyrics := Some lyrics |}.
Proof.
  unfold row_skipped. destruct r as [[|y|] [[|c l]|]]; simpl; auto 6.
  destruct (Z.eq_dec y 0) as [->|Hy]; [auto 6|].
  right. exists y, (c :: l). repeat split; congruence.
Qed.

(** C3, amended.  A row is passed over, no table entry and no counter
    touched, when its year is missing, is not a number or is 0, or when its
    lyrics are missing or empty; for every other row, which has an integer
    year other than 0 and lyrics that are not empty, each word extracted
    from the lyrics adds 1 to the entry of the year and the word, and no
    other entry changes. *)
Theorem process_row_counts (a : analyzer) (r : row) :
  (row_skipped r -> process_row a r = a) /\
  (~ row_skipped r ->
   exists y lyrics,
     row_year r = YearInt y /\ y <> 0%Z /\
     row_lyrics r = Some lyrics /\ lyrics <> [] /\
     forall y' w,
       entry (process_row a r) y' w =
       (entry a y' w +
        if (y' =? y)%Z then occurrences w (extract_vocabulary lyrics)
        else 0)%Z).
Proof.
  split; [apply process_row_skipped|].
  intros Hn. destruct (row_cases r) as [H|(y & lyrics & Hy & Hl & ->)];
    [contradiction|].
  exists y, lyrics. simpl. repeat split; auto.
  apply (process_row_counted a Hy Hl).
Qed.

Lemma process_row_invariants (a : analyzer) (r : row) :
  (table_total (vocab_by_year a) = total_vocab_count a ->
   table_total (vocab_by_year (process_row a r)) =
     total_vocab_count (process_row a r)) /\
  (NoDup (Dict.keys (vocab_by_year a)) ->
   NoDup (Dict.keys (vocab_by_year (process_row a r)))).
Proof.
  destruct (row_cases r) as [H|(y & lyrics & Hy & Hl & ->)].
  - rewrite (process_row_skipped a H). auto.
  - apply (process_row_counted a Hy Hl).
Qed.

Lemma analyze_csv_file_invariants (rows : list row) :
  let a := analyze_csv_file rows new_analyzer in
  table_total (vocab_by_year a) = total_vocab_count a /\
  NoDup (Dict.keys (vocab_by_year a)).
Proof.
  unfold analyze_csv_file.
  apply (fold_left_invariant
           (fun a => table_total (vocab_by_year a) = total_vocab_count a /\
                     NoDup (Dict.keys (vocab_by_year a)))).
  - split; [reflexivity | constructor].
  - intros a r [H1 H2]. split; now apply process_row_invariants.
Qed.

Lemma process_row_monotone (a : analyzer) (r : row) :
  (total_vocab_count a <= total_vocab_count (process_row a r))%Z /\
  forall y w, (entry a y w <= entry (process_row a r) y w)%Z.
Proof.
  destruct (row_cases r) as [H|(y & lyrics & Hy & Hl & ->)].
  - rewrite (process_row_skipped a H). split; intros; lia.
  - pose proof (process_row_counted a Hy Hl) as H. cbv zeta in H.
    destruct H as (He & Ht & _). rewrite Ht. split; [lia|]. intros y' w. rewrite He.
    pose proof (occurrences_nonneg w (extract_vocabulary lyrics)).
    destruct (y' =? y)%Z; lia.
Qed.

End FullVocabularyFacts.

(** ** Rankings *)

Lemma StronglySorted_impl (A : Type) (R R' : A -> A -> Prop) (l : list A) :
  (forall x y, In x l -> In y l -> R x y -> R' x y) ->
  StronglySorted R l -> StronglySorted R' l.
Proof.
  induction l as [|a l IH]; intros Hi H; [constructor|].
  inversion H as [|? ? Hs Hf]; subst. constructor.
  - apply IH; [|exact Hs]. intros x y Hx Hy. apply Hi; now right.
  - rewrite Forall_forall in *. intros x Hx.
    apply Hi; [now left | now right | now apply Hf].
Qed.

Lemma StronglySorted_NoDup_neq (A : Type) (R : A -> A -> Prop) (l : list A) :
  NoDup l -> StronglySorted R l ->
  StronglySorted (fun x y => R x y /\ x <> y) l.
Proof.
  induction l as [|a l IH]; intros Hn H; [constructor|].
  inversion H as [|? ? Hs Hf]; subst.
  inversion Hn as [|? ? Ha Hl]; subst. constructor; [now apply IH|].
  rewrite Forall_forall in *. intros x Hx. split; [now apply Hf|].
  intros ->. contradiction.
Qed.

Lemma StronglySorted_map (A B : Type) (f : A -> B) (R : B -> B -> Prop)
    (l : list A) :
  StronglySorted (fun x y => R (f x) (f y)) l -> StronglySorted R (map f l).
Proof.
  induction 1 as [|a l Hs IH Hf]; simpl; constructor; [exact IH|].
  rewrite Forall_forall in *. intros y Hy.
  apply in_map_iff in Hy as (x & <- & Hx). now apply Hf.
Qed.

Lemma sorted_StronglySorted (A : Type) (leb : A -> A -> bool) (l : list A) :
  (forall x y, leb x y = false -> leb y x = true) ->
  (forall x y z, leb x y = true -> leb y z = true -> leb x z = true) ->
  StronglySorted (fun x y => leb x y = true) (sorted leb l).
Proof.
  intros Htot Htr. apply Sorted_StronglySorted.
  - intros x y z. apply Htr.
  - now apply sorted_Sorted.
Qed.

Lemma sorted_years (l : list Z) :
  NoDup l -> StronglySorted Z.lt (sorted Z.leb l).
Proof.
  intros Hn.
  apply (StronglySorted_impl
           (R := fun x y => Z.leb x y = true /\ x <> y)).
  - intros x y _ _ [H1 H2]. apply Z.leb_le in H1. lia.
  - apply StronglySorted_NoDup_neq.
    + apply (Permutation_NoDup (l := l)); [|exact Hn].
      symmetry. apply sorted_perm.
    + apply sorted_StronglySorted; intros *; rewrite ?Z.leb_le, ?Z.leb_gt;
        lia.
Qed.

(** What [most_common] ranks: the items in descending count, ties in the
    order of the counter. *)
Lemma ranked_counter (c : counter) :
  Permutation (sorted count_geb c) c /\
  StronglySorted (fun p q => (snd q <= snd p)%Z) (sorted count_geb c) /\
  forall n, filter (fun p => (snd p =? n)%Z) (sorted count_geb c) =
            filter (fun p => (snd p =? n)%Z) c.
Proof.
  split; [apply sorted_perm|]. split.
  - apply (StronglySorted_impl (R := fun p q => count_geb p q = true)).
    + intros p q _ _ H. unfold count_geb in H. now apply Z.leb_le.
    + apply sorted_StronglySorted; unfold count_geb; intros *;
        rewrite ?Z.leb_le, ?Z.leb_gt; lia.
  - intros n. apply sorted_stable. intros p q Hp Hq. unfold count_geb.
    apply Z.eqb_eq in Hp, Hq. apply Z.leb_le. lia.
Qed.

Section Rankings.

Context {U : Unicode} {J : Segmenter}.

(** C7.  [generate_yearly_rankings(top_n)] has one key for each year of the
    table and no other, the keys come in ascending order, and each year is
    mapped to the first [top_n] of its (word, count) pairs ranked by
    descending count, pairs with the same count staying in the order in
    which the words were first counted. *)
Theorem yearly_rankings_ranked (rows : list row) (top_n : Z) :
  let a := analyze_csv_file rows new_analyzer in
  let rankings := generate_yearly_rankings top_n a in
  StronglySorted Z.lt (map fst rankings) /\
  (forall y, In y (map fst rankings) <-> In y (Dict.keys (vocab_by_year a))) /\
  forall y l, In (y, l) rankings ->
    exists items ranked,
      In (y, items) (vocab_by_year a) /\
      Permutation ranked items /\
      StronglySorted (fun p q => (snd q <= snd p)%Z) ranked /\
      (forall n, filter (fun p => (snd p =? n)%Z) ranked =
                 filter (fun p => (snd p =? n)%Z) items) /\
      l = firstn (Z.to_nat top_n) ranked.
Proof.
  intros a rankings.
  destruct (analyze_csv_file_invariants rows) as [_ Hn]. fold a in Hn.
  assert (Hk : map fst rankings = sorted Z.leb (Dict.keys (vocab_by_year a))).
  { unfold rankings, generate_yearly_rankings. rewrite map_map. simpl.
    apply map_id. }
  assert (Hp : forall y, In y (sorted Z.leb (Dict.keys (vocab_by_year a))) <->
                         In y (Dict.keys (vocab_by_year a))).
  { intros y. split; apply Permutation_in;
      [|symmetry]; apply sorted_perm. }
  split; [|split].
  - rewrite Hk. now apply sorted_years.
  - intros y. rewrite Hk. apply Hp.
  - intros y l Hin. unfold rankings, generate_yearly_rankings in Hin.
    apply in_map_iff in Hin as (year & E & Hy). inversion E; subst.
    apply Hp in Hy.
    exists (Dict.get Z.eqb [] y (vocab_by_year a)),
      (sorted count_geb (Dict.get Z.eqb [] y (vocab_by_year a))).
    split; [apply (get_in Z.eqb Z.eqb_eq), Hy|].
    destruct (ranked_counter (Dict.get Z.eqb [] y (vocab_by_year a)))
      as (H1 & H2 & H3).
    repeat split; assumption.
Qed.

End Rankings.

(** ** Fixed-keyword mode *)

Lemma years_total_update (y m : Z) (yf : list (Z * Z)) :
  years_total (Dict.update Z.eqb 0%Z (fun n => n + m)%Z y yf) =
  (years_total yf + m)%Z.
Proof.
  unfold years_total.
  pose proof (update_total Z.eqb 0%Z (fun n : Z => n) (fun n => n + m)%Z
                y yf eq_refl) as H.
  cbv beta in H. change (fun kv : Z * Z => snd kv) with (@snd Z Z) in H.
  rewrite H. lia.
Qed.

Lemma years_ok_update (y m : Z) (yf : list (Z * Z)) :
  (0 < m)%Z -> years_ok yf ->
  years_ok (Dict.update Z.eqb 0%Z (fun n => n + m)%Z y yf).
Proof.
  intros Hm [H1 H2]. split.
  - now apply keys_update_NoDup; [exact Z.eqb_eq|].
  - apply (update_Forall Z.eqb 0%Z (fun n => (0 < n)%Z)); [lia| |exact H2].
    intros v Hv. lia.
Qed.

Section FixedKeywordsFacts.

Context {U : Unicode} {J : Segmenter}.

Lemma matches_nonneg (k : str) (ws : list str) : (0 <= matches k ws)%Z.
Proof. unfold matches. lia. Qed.

Lemma count_keyword_zero (y : Z) (ws : list str) (a : keyword_analyzer)
    (k : str) :
  matches k ws = 0%Z -> count_keyword y ws a k = a.
Proof. intros H. unfold count_keyword. now rewrite H. Qed.

Lemma kw_entry_count_keyword (y : Z) (ws : list str) (a : keyword_analyzer)
    (k : str) k' y' :
  kw_entry (count_keyword y ws a k) k' y' =
  (kw_entry a k' y' +
   if str_eqb k' k && (y' =? y)%Z then matches k ws else 0)%Z.
Proof.
  pose proof (matches_nonneg k ws) as Hm.
  unfold count_keyword. destruct (0 <? matches k ws)%Z eqn:E.
  - unfold kw_entry. simpl.
    rewrite (get_update str_eqb str_eqb_eq).
    destruct (str_eqb k' k) eqn:Ek; simpl; [|lia].
    apply str_eqb_eq in Ek. subst k'.
    rewrite (get_update Z.eqb Z.eqb_eq).
    destruct (y' =? y)%Z eqn:Ey; [|lia].
    apply Z.eqb_eq in Ey. subst y'. lia.
  - apply Z.ltb_ge in E.
    destruct (str_eqb k' k && (y' =? y)%Z); lia.
Qed.

(** A keyword is counted once for each time it stands in the list. *)
Lemma kw_entry_count_keywords (y : Z) (ws ks : list str)
    (a : keyword_analyzer) k' y' :
  kw_entry (fold_left (count_keyword y ws) ks a) k' y' =
  (kw_entry a k' y' +
   if (y' =? y)%Z then occurrences k' ks * matches k' ws else 0)%Z.
Proof.
  revert a. induction ks as [|k ks IH]; intros a; simpl fold_left.
  - unfold occurrences. simpl. destruct (y' =? y)%Z; lia.
  - rewrite IH, kw_entry_count_keyword, occurrences_cons.
    destruct (str_eqb k' k) eqn:Ek; cbn [andb].
    + apply str_eqb_eq in Ek. subst k'. destruct (y' =? y)%Z; lia.
    + destruct (y' =? y)%Z; lia.
Qed.

Lemma count_keyword_invariants (y : Z) (ws : list str)
    (a : keyword_analyzer) (k : str) :
  (total_matches a <= total_matches (count_keyword y ws a k))%Z /\
  (keyword_table_total (keyword_frequencies a) = total_matches a ->
   keyword_table_total (keyword_frequencies (count_keyword y ws a k)) =
     total_matches (count_keyword y ws a k)) /\
  (keyword_table_ok (keyword_frequencies a) ->
   keyword_table_ok (keyword_frequencies (count_keyword y ws a k))).
Proof.
  unfold count_keyword. destruct (0 <? matches k ws)%Z eqn:E;
    [|split; [lia | auto]].
  apply Z.ltb_lt in E. simpl. split; [lia|]. split.
  - intros H. unfold keyword_table_total in *.
    rewrite (update_total str_eqb [] years_total) by reflexivity.
    rewrite years_total_update.
    match goal with
    | |- (?x + _)%Z = _ => change x with
        (fold_right Z.add 0%Z
           (map (fun kv : str * list (Z * Z) => years_total (snd kv))
              (keyword_frequencies a)))
    end.
    rewrite H. lia.
  - intros [H1 H2]. split.
    + now apply keys_update_NoDup; [exact str_eqb_eq|].
    + apply (update_Forall str_eqb [] years_ok); [| |exact H2].
      * apply years_ok_update; [exact E|]. split; constructor.
      * intros v. now apply years_ok_update.
Qed.

Lemma count_keywords_invariants (y : Z) (ws ks : list str)
    (a : keyword_analyzer) :
  let a' := fold_left (count_keyword y ws) ks a in
  (total_matches a <= total_matches a')%Z /\
  (keyword_table_total (keyword_frequencies a) = total_matches a ->
   keyword_table_total (keyword_frequencies a') = total_matches a') /\
  (keyword_table_ok (keyword_frequencies a) ->
   keyword_table_ok (keyword_frequencies a')).
Proof.
  revert a. induction ks as [|k ks IH]; intros a; simpl.
  - split; [lia | auto].
  - destruct (IH (count_keyword y ws a k)) as (I1 & I2 & I3).
    destruct (count_keyword_invariants y ws a k) as (C1 & C2 & C3).
    split; [lia | auto].
Qed.

Lemma process_keyword_row_skipped ks (a : keyword_analyzer) (r : row) :
  row_skipped r -> process_keyword_row ks a r = a.
Proof.
  unfold row_skipped, process_keyword_row. destruct r as [yc l]. simpl.
  intros [H|[H|[H|[H|H]]]]; subst; simpl; try reflexivity.
  - destruct yc as [|y|]; simpl; try reflexivity.
    destruct (y =? 0)%Z; reflexivity.
  - destruct yc as [|y|]; simpl; try reflexivity.
    destruct (y =? 0)%Z; reflexivity.
Qed.

Lemma process_keyword_row_counted ks (a : keyword_analyzer) (y : Z)
    (lyrics : str) :
  y <> 0%Z -> lyrics <> [] ->
  let r := {| row_year := YearInt y; row_lyrics := Some lyrics |} in
  let words := extract_vocabulary lyrics in
  (forall k' y',
     kw_entry (process_keyword_row ks a r) k' y' =
     (kw_entry a k' y' +
      if (y' =? y)%Z then occurrences k' ks * matches k' words else 0)%Z) /\
  (total_matches a <= total_matches (process_keyword_row ks a r))%Z /\
  (keyword_table_total (keyword_frequencies a) = total_matches a ->
   keyword_table_total (keyword_frequencies (process_keyword_row ks a r)) =
     total_matches (process_keyword_row ks a r)) /\
  (keyword_table_ok (keyword_frequencies a) ->
   keyword_table_ok (keyword_frequencies (process_keyword_row ks a r))).
Proof.
  intros Hy Hl r words. unfold process_keyword_row. simpl.
  apply Z.eqb_neq in Hy. rewrite Hy. apply null_false_iff in Hl.
  rewrite Hl. simpl. fold words.
  destruct (null words) eqn:Hw.
  - apply null_true_iff in Hw. rewrite Hw.
    split; [|split; [lia | split; auto]]. intros k' y'.
    change (matches k' []) with 0%Z. destruct (y' =? y)%Z; lia.
  - split.
    + intros k' y'. apply kw_entry_count_keywords.
    + apply (count_keywords_invariants y words ks a).
Qed.

Lemma process_keyword_row_invariants ks (a : keyword_analyzer) (r : row) :
  (total_matches a <= total_matches (process_keyword_row ks a r))%Z /\
  (forall k y,
     (kw_entry a k y <= kw_entry (process_keyword_row ks a r) k y)%Z) /\
  (keyword_table_total (keyword_frequencies a) = total_matches a ->
   keyword_table_total (keyword_frequencies (process_keyword_row ks a r)) =
     total_matches (process_keyword_row ks a r)) /\
  (keyword_table_ok (keyword_frequencies a) ->
   keyword_table_ok (keyword_frequencies (process_keyword_row ks a r))).
Proof.
  destruct (row_cases r) as [H|(y & lyrics & Hy & Hl & ->)].
  - rewrite (process_keyword_row_skipped ks a H).
    split; [lia|]. split; [intros; lia|]. split; auto.
  - pose proof (process_keyword_row_counted ks a Hy Hl) as H.
    cbv zeta in H. destruct H as (He & Ht & Hs & Hok).
    split; [exact Ht|]. split; [|split; assumption].
    intros k y'. rewrite He.
    pose proof (occurrences_nonneg k ks).
    pose proof (matches_nonneg k (extract_vocabulary lyrics)).
    destruct (y' =? y)%Z; nia.
Qed.

Lemma analyze_keywords_invariants (rows : list row) (ks : list str) :
  let a := analyze_keywords rows ks new_keyword_analyzer in
  keyword_table_total (keyword_frequencies a) = total_matches a /\
  keyword_table_ok (keyword_frequencies a).
Proof.
  unfold analyze_keywords.
  apply (fold_left_invariant
           (fun a =>
              keyword_table_total (keyword_frequencies a) = total_matches a /\
              keyword_table_ok (keyword_frequencies a))).
  - split; [reflexivity|]. split; constructor.
  - intros a r [H1 H2]. split; now apply process_keyword_row_invariants.
Qed.

(** C5, amended.  When no keyword stands twice in the keyword list, a row
    that is not passed over adds to the count of a keyword K of the list,
    for the year of the row, exactly the number of extracted words W with
    [W.lower() == K.lower()], an equality of whole strings; it changes no
    count of another year or of a keyword outside the list; when that
    number is 0 the loop body leaves the analyzer as it is; and the word
    rapper is no match for the keyword rap. *)
Theorem keyword_counts_exact (keywords : list str) (a : keyword_analyzer)
    (r : row) :
  (NoDup keywords -> ~ row_skipped r ->
   exists y lyrics,
     row_year r = YearInt y /\ row_lyrics r = Some lyrics /\
     forall K,
       let n :=
         Z.of_nat
           (length (filter (fun W => str_eqb (lower W) (lower K))
                      (extract_vocabulary lyrics))) in
       (In K keywords ->
        kw_entry (process_keyword_row keywords a r) K y =
        (kw_entry a K y + n)%Z) /\
       (~ In K keywords ->
        kw_entry (process_keyword_row keywords a r) K y = kw_entry a K y) /\
       (forall Y, Y <> y ->
        kw_entry (process_keyword_row keywords a r) K Y = kw_entry a K Y) /\
       (n = 0%Z ->
        forall a0, count_keyword y (extract_vocabulary lyrics) a0 K = a0)) /\
  matches [114; 97; 112]%N [[114; 97; 112; 112; 101; 114]%N] = 0%Z.
Proof.
  split.
  - intros Hnd Hn.
    destruct (row_cases r) as [H|(y & lyrics & Hy & Hl & ->)];
      [contradiction|].
    exists y, lyrics. split; [reflexivity|]. split; [reflexivity|].
    intros K n.
    pose proof (process_keyword_row_counted keywords a Hy Hl) as H.
    cbv zeta in H. destruct H as (He & _).
    fold (matches K (extract_vocabulary lyrics)) in n.
    split; [|split; [|split]].
    + intros Hin. rewrite He, Z.eqb_refl. unfold occurrences.
      rewrite (proj1 (NoDup_count_occ' (list_eq_dec N.eq_dec) keywords)
                 Hnd K Hin).
      subst n. lia.
    + intros Hin. rewrite He, Z.eqb_refl. unfold occurrences.
      rewrite (proj1 (count_occ_not_In (list_eq_dec N.eq_dec) keywords K)
                 Hin).
      lia.
    + intros Y HY. rewrite He. apply Z.eqb_neq in HY. rewrite HY. lia.
    + intros H0 a0. now apply count_keyword_zero.
  - unfold matches.
    rewrite (lower_ascii [114; 97; 112]%N eq_refl). cbn [filter].
    rewrite (lower_ascii [114; 97; 112; 112; 101; 114]%N eq_refl).
    reflexivity.
Qed.

Lemma sorted_pairs_by_year (l : list (Z * Z)) :
  StronglySorted (fun x y => pair_leb x y = true) l ->
  NoDup (map fst l) ->
  StronglySorted Z.lt (map fst l).
Proof.
  induction l as [|a l IH]; intros Hs Hn; simpl; [constructor|].
  inversion Hs as [|? ? Hs' Hf]; subst.
  inversion Hn as [|? ? Ha Hn']; subst.
  constructor; [now apply IH|].
  rewrite Forall_forall in *. intros y Hy.
  apply in_map_iff in Hy as (x & <- & Hx).
  specialize (Hf x Hx). unfold pair_leb in Hf.
  assert (fst a <> fst x).
  { intros E. apply Ha. rewrite E. now apply in_map. }
  rewrite orb_true_iff, andb_true_iff, Z.ltb_lt, Z.eqb_eq in Hf. lia.
Qed.

Lemma sorted_years_ok (yf : list (Z * Z)) :
  years_ok yf ->
  StronglySorted Z.lt (map fst (sorted pair_leb yf)) /\
  Forall (fun yc => (0 < snd yc)%Z) (sorted pair_leb yf) /\
  Permutation (sorted pair_leb yf) yf.
Proof.
  intros [Hn Hp]. pose proof (sorted_perm pair_leb yf) as Hperm.
  split; [|split; [|exact Hperm]].
  - apply sorted_pairs_by_year.
    + apply sorted_StronglySorted; unfold pair_leb; intros *;
        rewrite ?orb_true_iff, ?orb_false_iff, ?andb_true_iff,
          ?andb_false_iff, ?Z.ltb_lt, ?Z.ltb_ge, ?Z.eqb_eq, ?Z.eqb_neq,
          ?Z.leb_le, ?Z.leb_gt; lia.
    + apply (Permutation_NoDup (l := map fst yf)); [|exact Hn].
      apply Permutation_map. now symmetry.
  - rewrite Forall_forall in *. intros p Hin. apply Hp.
    now apply (Permutation_in _ Hperm).
Qed.

(** C8.  [generate_frequency_data] gives each keyword of the table its
    (year, count) pairs in strictly ascending order of the year, and every
    count is above 0: an entry is created or increased only by a number of
    matches above 0. *)
Theorem frequency_data_sorted_positive (rows : list row)
    (keywords : list str) :
  let a := analyze_keywords rows keywords new_keyword_analyzer in
  let data := generate_frequency_data a in
  map fst data = map fst (keyword_frequencies a) /\
  forall k l, In (k, l) data ->
    StronglySorted Z.lt (map fst l) /\
    Forall (fun yc => (0 < snd yc)%Z) l /\
    Permutation l (Dict.get str_eqb [] k (keyword_frequencies a)).
Proof.
  intros a data.
  destruct (analyze_keywords_invariants rows keywords) as [_ [Hn Hok]].
  fold a in Hn, Hok. split.
  - unfold data, generate_frequency_data. rewrite map_map. reflexivity.
  - intros k l Hin. unfold data, generate_frequency_data in Hin.
    apply in_map_iff in Hin as ([k0 yf] & E & Hkv). simpl in E.
    inversion E; subst k0 l. clear E.
    rewrite (in_get str_eqb str_eqb_eq [] k yf _ Hn Hkv).
    apply sorted_years_ok.
    rewrite Forall_forall in Hok. apply (Hok _ Hkv).
Qed.

(** C9.  From one row to the next, and so along any sequence of rows, the
    total counters ([total_vocab_count] in full mode, [total_matches] in
    keyword mode) and every entry of the tables do not decrease, and a row
    whose year is missing or whose lyrics are empty leaves both analyzers
    as they are. *)
Theorem counters_monotone (keywords : list str) (a : analyzer)
    (ka : keyword_analyzer) (r : row) (rows : list row) :
  ((total_vocab_count a <= total_vocab_count (process_row a r))%Z /\
   (forall y w, (entry a y w <= entry (process_row a r) y w)%Z) /\
   (total_matches ka <=
    total_matches (process_keyword_row keywords ka r))%Z /\
   (forall k y,
      (kw_entry ka k y <=
       kw_entry (process_keyword_row keywords ka r) k y)%Z)) /\
  ((total_vocab_count a <= total_vocab_count (analyze_csv_file rows a))%Z /\
   (forall y w, (entry a y w <= entry (analyze_csv_file rows a) y w)%Z) /\
   (total_matches ka <=
    total_matches (analyze_keywords rows keywords ka))%Z /\
   (forall k y,
      (kw_entry ka k y <=
       kw_entry (analyze_keywords rows keywords ka) k y)%Z)) /\
  (row_year r = YearMissing \/ read_lyrics (row_lyrics r) = [] ->
   process_row a r = a /\ process_keyword_row keywords ka r = ka).
Proof.
  split; [|split].
  - destruct (process_row_monotone a r) as [H1 H2].
    destruct (process_keyword_row_invariants keywords ka r)
      as (H3 & H4 & _).
    auto.
  - unfold analyze_csv_file, analyze_keywords. split; [|split; [|split]].
    + revert a. induction rows as [|x rows IH]; intros a; simpl; [lia|].
      pose proof (proj1 (process_row_monotone a x)).
      specialize (IH (process_row a x)). lia.
    + revert a. induction rows as [|x rows IH]; intros a y w; simpl; [lia|].
      pose proof (proj2 (process_row_monotone a x) y w).
      specialize (IH (process_row a x) y w). lia.
    + revert ka. induction rows as [|x rows IH]; intros ka; simpl; [lia|].
      pose proof (proj1 (process_keyword_row_invariants keywords ka x)).
      specialize (IH (process_keyword_row keywords ka x)). lia.
    + revert ka. induction rows as [|x rows IH]; intros ka k y; simpl;
        [lia|].
      destruct (process_keyword_row_invariants keywords ka x)
        as (_ & H & _). specialize (H k y).
      specialize (IH (process_keyword_row keywords ka x) k y). lia.
  - intros H.
    assert (Hs : row_skipped r).
    { unfold row_skipped. destruct H as [H|H]; [auto|].
      destruct (row_lyrics r) as [l|]; simpl in H; subst; auto 6. }
    split; [now apply process_row_skipped
           | now apply process_keyword_row_skipped].
Qed.

(** C10.  After any rows, the total counter of an analyzer is the sum of
    all the entries of its table: [total_vocab_count] is the sum of
    [vocab_by_year] over the years and the words, [total_matches] is the
    sum of [keyword_frequencies] over the keywords and the years. *)
Theorem totals_match_tables (rows : list row) (keywords : list str) :
  total_vocab_count (analyze_csv_file rows new_analyzer) =
    table_total (vocab_by_year (analyze_csv_file rows new_analyzer)) /\
  total_matches (analyze_keywords rows keywords new_keyword_analyzer) =
    keyword_table_total
      (keyword_frequencies
         (analyze_keywords rows keywords new_keyword_analyzer)).
Proof.
  split; symmetry.
  - apply (analyze_csv_file_invariants rows).
  - apply (analyze_keywords_invariants rows keywords).
Qed.

End FixedKeywordsFacts.

(* ================================================================== *)
(** * Further properties of the tokenizer *)

Lemma flat_map_nil (A B : Type) (f : A -> list B) (l : list A) :
  (forall a, In a l -> f a = []) -> flat_map f l = [].
Proof.
  induction l as [|a l IH]; simpl; intros H; [reflexivity|].
  rewrite (H a (or_introl eq_refl)), IH by auto. reflexivity.
Qed.

Lemma flat_map_singletons (A : Type) (f : A -> list A) (l : list A) :
  (forall a, In a l -> f a = [a]) -> flat_map f l = l.
Proof.
  induction l as [|a l IH]; simpl; intros H; [reflexivity|].
  rewrite (H a (or_introl eq_refl)), IH by auto. reflexivity.
Qed.

Lemma existsb_false_forall (A : Type) (p : A -> bool) (l : list A) :
  existsb p l = false <-> forall a, In a l -> p a = false.
Proof.
  induction l as [|a l IH]; simpl.
  - split; [tauto | reflexivity].
  - rewrite orb_false_iff, IH. split.
    + intros [Ha Hl] x [<-|Hx]; auto.
    + intros H. split; auto.
Qed.

Lemma split_aux_app p cur (a b : str) c :
  p c = true ->
  split_aux p cur (a ++ c :: b) = split_aux p cur a ++ split_aux p [] b.
Proof.
  intros Hc. revert cur. induction a as [|x a IH]; intros cur; simpl.
  - now rewrite Hc.
  - destruct (p x); [|apply IH]. now rewrite IH, app_assoc.
Qed.

Lemma split_aux_no_sep p cur (s : str) :
  forallb (fun c => negb (p c)) s = true ->
  split_aux p cur s = flush (cur ++ s).
Proof.
  revert cur. induction s as [|x s IH]; intros cur; simpl.
  - now rewrite app_nil_r.
  - intros H. apply andb_true_iff in H as [Hx Hs].
    apply negb_true_iff in Hx. rewrite Hx, IH by exact Hs.
    now rewrite <- app_assoc.
Qed.

Lemma split_one_token p (s : str) :
  s <> [] -> forallb (fun c => negb (p c)) s = true -> split p s = [s].
Proof.
  intros Hne H. unfold split. rewrite split_aux_no_sep by exact H.
  simpl. unfold flush. apply null_false_iff in Hne. now rewrite Hne.
Qed.

Lemma chinese_not_space c :
  is_chinese_character c = true -> isspace c = false.
Proof.
  intros H. destruct (isspace c) eqn:E; [|reflexivity]. exfalso.
  unfold is_chinese_character in H. unfold isspace in E.
  bool_prop H. bool_prop E. lia.
Qed.

Lemma ascii_char_facts c :
  is_ascii c = true ->
  is_chinese_character c = false /\
  isspace (ascii_lower_char c) = isspace c /\
  is_ascii (ascii_lower_char c) = true /\
  english_class (ascii_lower_char c) = english_class c /\
  (english_class c = true ->
   (ascii_isalnum c || mem c punctuation_literal) = true).
Proof.
  intros Ha.
  pose proof
    (ascii_enum
       (fun c =>
          negb (is_chinese_character c) &&
          Bool.eqb (isspace (ascii_lower_char c)) (isspace c) &&
          is_ascii (ascii_lower_char c) &&
          Bool.eqb (english_class (ascii_lower_char c)) (english_class c) &&
          implb (english_class c)
            (ascii_isalnum c || mem c punctuation_literal))
       eq_refl c Ha) as E.
  cbv beta in E.
  repeat (apply andb_true_iff in E as [E ?]).
  repeat match goal with
         | X : negb _ = true |- _ => apply negb_true_iff in X
         | X : Bool.eqb _ _ = true |- _ => apply Bool.eqb_prop in X
         end.
  repeat split; try assumption.
  intros Hc. rewrite Hc in *. assumption.
Qed.

(** On a word without whitespace the newline case of the dollar anchor
    cannot arise. *)
Lemma is_english_word_no_space (w : str) :
  forallb (fun c => negb (isspace c)) w = true ->
  is_english_word w = negb (null w) && forallb english_class w.
Proof.
  intros Hw. apply eq_true_iff_eq. rewrite andb_true_iff, negb_true_iff.
  rewrite null_false_iff. split.
  - intros H. assert (Hne : w <> []) by (intros ->; discriminate).
    split; [exact Hne|]. apply is_english_word_class; [exact H|].
    intros E. rewrite forallb_forall in Hw.
    assert (Hin : In (last w 0%N) w).
    { destruct w as [|x w]; [congruence|].
      rewrite (app_removelast_last 0%N Hne) at 2.
      apply in_or_app. right. now left. }
    specialize (Hw _ Hin). rewrite E in Hw. discriminate.
  - intros [Hne H]. now apply class_is_english_word.
Qed.

Section TokenizerFacts.

Context {U : Unicode} {J : Segmenter}.

Lemma extract_vocabulary_accepted (text w : str) :
  In w (extract_vocabulary text) -> accepted_word w.
Proof.
  rewrite extract_vocabulary_eq. unfold vocabulary_filter.
  rewrite in_flat_map. intros (u & _ & H).
  apply filter_unit_in in H as (_ & H). exact H.
Qed.

(** X1.  A text none of whose characters is Chinese or Latin-eligible, so
    also the empty text and a text of whitespace, has an empty
    vocabulary. *)
Theorem no_eligible_character_no_vocabulary (text : str) :
  (forall c, In c text ->
     is_chinese_character c = false /\ latin_eligible c = false) ->
  extract_vocabulary text = [].
Proof.
  intros H. rewrite extract_vocabulary_eq. unfold vocabulary.
  rewrite flat_map_nil; [reflexivity|].
  intros t Ht. destruct (token_strip text t Ht) as [Hs Hn].
  apply split_token in Ht as (_ & _ & Hin).
  assert (Hc : existsb is_chinese_character t = false).
  { apply existsb_false_forall. intros c Hin'. apply H, Hin, Hin'. }
  assert (He : existsb latin_eligible t = false).
  { apply existsb_false_forall. intros c Hin'. apply H, Hin, Hin'. }
  unfold token_units. now rewrite Hs, Hn, Hc, He.
Qed.

(** X2.  The vocabulary of two texts joined by a whitespace character is
    the vocabulary of the first followed by the vocabulary of the second:
    extraction works token by token. *)
Theorem extract_vocabulary_app (a b : str) (ws : char) :
  isspace ws = true ->
  extract_vocabulary (a ++ ws :: b) =
  extract_vocabulary a ++ extract_vocabulary b.
Proof.
  intros Hws. rewrite !extract_vocabulary_eq.
  unfold vocabulary_filter, vocabulary, split.
  rewrite (split_aux_app isspace [] a b ws Hws).
  now rewrite !flat_map_app.
Qed.

(** X3.  The vocabulary depends on the text through its tokens only: two
    texts with the same whitespace-separated tokens have the same
    vocabulary, and whitespace around the text changes nothing. *)
Theorem extract_vocabulary_tokens (a b : str) :
  (split isspace a = split isspace b ->
   extract_vocabulary a = extract_vocabulary b) /\
  extract_vocabulary (strip isspace a) = extract_vocabulary a.
Proof.
  split.
  - intros H. rewrite !extract_vocabulary_eq. unfold vocabulary.
    now rewrite H.
  - rewrite !extract_vocabulary_eq. now rewrite vocabulary_strip.
Qed.

(** X4.  For a text that is one run of Chinese characters, when the oracle
    answers with segments of Chinese characters, the vocabulary is the
    segments of two characters or more, in the order of the oracle; the
    segments of one character are never counted. *)
Theorem chinese_token_vocabulary (token : str) :
  token <> [] ->
  forallb is_chinese_character token = true ->
  (forall w, In w (lcut token) -> forallb is_chinese_character w = true) ->
  extract_vocabulary token = filter long_enough (lcut token).
Proof.
  intros Hne Hch Hor.
  assert (Hws : forall w, forallb is_chinese_character w = true ->
                forallb (fun c => negb (isspace c)) w = true).
  { intros w Hw. rewrite forallb_forall in *. intros c Hc.
    apply negb_true_iff, chinese_not_space, Hw, Hc. }
  rewrite extract_vocabulary_eq. unfold vocabulary.
  rewrite (split_one_token isspace Hne (Hws _ Hch)). simpl.
  rewrite app_nil_r.
  assert (Hu : token_units token = filter long_enough (lcut token)).
  { unfold token_units. rewrite (strip_id isspace token (Hws _ Hch)).
    apply null_false_iff in Hne as Hn. rewrite Hn.
    assert (H1 : existsb is_chinese_character token = true).
    { destruct token as [|c t]; [congruence|]. simpl in *.
      apply andb_true_iff in Hch as [-> _]. reflexivity. }
    assert (H2 : existsb latin_eligible token = false).
    { apply existsb_false_forall. intros c Hc. unfold latin_eligible.
      rewrite forallb_forall in Hch. rewrite (Hch c Hc).
      apply andb_false_r. }
    now rewrite H1, H2. }
  rewrite Hu. unfold vocabulary_filter. apply flat_map_singletons.
  intros w Hw. apply filter_In in Hw as [Hw Hl].
  specialize (Hor w Hw). unfold filter_unit.
  rewrite (strip_id isspace w (Hws _ Hor)), Hl.
  destruct w as [|c w]; [discriminate|]. simpl in Hor.
  apply andb_true_iff in Hor as [Hc _]. simpl. rewrite Hc.
  now rewrite orb_true_r.
Qed.

Lemma forallb_strip (p : char -> bool) q (s : str) :
  forallb p s = true -> forallb p (strip q s) = true.
Proof. apply forallb_incl. intros c. apply strip_incl. Qed.

Lemma ascii_lower_facts (s : str) :
  forallb is_ascii s = true ->
  forallb (fun c => negb (isspace c)) s = true ->
  forallb is_ascii (ascii_lower s) = true /\
  forallb (fun c => negb (isspace c)) (ascii_lower s) = true /\
  first_is_chinese (ascii_lower s) = false /\
  forallb english_class (ascii_lower s) = forallb english_class s.
Proof.
  induction s as [|c s IH]; simpl; intros Ha Hs; [auto|].
  apply andb_true_iff in Ha as [Hc Ha]. apply andb_true_iff in Hs as [Hcs Hs].
  destruct (IH Ha Hs) as (I1 & I2 & _ & I4).
  destruct (ascii_char_facts c Hc) as (_ & F2 & F3 & F4 & _).
  destruct (ascii_char_facts _ F3) as (F1 & _).
  rewrite F2, F3, F4, I1, I2, I4, Hcs, F1. auto.
Qed.

(** What one token of an ASCII text leaves in the vocabulary. *)
Lemma ascii_token_units (t : str) :
  t <> [] ->
  forallb is_ascii t = true ->
  forallb (fun c => negb (isspace c)) t = true ->
  let cleaned :=
    ascii_lower (strip (fun c => mem c punctuation_literal) t) in
  flat_map filter_unit (token_units t) =
    if long_enough cleaned && forallb english_class cleaned
    then [cleaned] else [].
Proof.
  intros Hne Ha Hs cleaned.
  set (s := strip (fun c => mem c punctuation_literal) t) in *.
  assert (Hsa : forallb is_ascii s = true) by now apply forallb_strip.
  assert (Hss : forallb (fun c => negb (isspace c)) s = true)
    by now apply forallb_strip.
  destruct (ascii_lower_facts s Hsa Hss) as (L1 & L2 & L3 & L4).
  fold cleaned in L1, L2, L3, L4.
  assert (Hch : existsb is_chinese_character t = false).
  { apply existsb_false_forall. intros c Hc. rewrite forallb_forall in Ha.
    apply (ascii_char_facts c (Ha c Hc)). }
  unfold token_units. rewrite (strip_id isspace t Hs).
  apply null_false_iff in Hne as Hn. rewrite Hn, Hch. cbn [andb].
  fold s. rewrite (lower_ascii s Hsa). fold cleaned.
  destruct (existsb latin_eligible t) eqn:He.
  - destruct (long_enough cleaned) eqn:Hl; [|reflexivity].
    cbn [flat_map andb]. rewrite app_nil_r. unfold filter_unit.
    rewrite (strip_id isspace cleaned L2), Hl, L3, orb_false_r.
    rewrite (is_english_word_no_space cleaned L2).
    assert (Hnn : null cleaned = false).
    { destruct cleaned; [discriminate | reflexivity]. }
    now rewrite Hnn.
  - cbn [flat_map].
    destruct (long_enough cleaned && forallb english_class cleaned) eqn:E;
      [|reflexivity].
    exfalso. apply andb_true_iff in E as [Hl Hc]. rewrite L4 in Hc.
    assert (Hsn : s <> []).
    { intros Es. unfold cleaned in Hl. rewrite Es in Hl. discriminate. }
    destruct s as [|c s'] eqn:Es; [congruence|].
    assert (Hin : In c t).
    { apply (strip_incl (fun c => mem c punctuation_literal)).
      fold s. rewrite Es. now left. }
    simpl in Hc, Hsa. apply andb_true_iff in Hc as [Hc _].
    apply andb_true_iff in Hsa as [Hca _].
    destruct (ascii_char_facts c Hca) as (F1 & _ & _ & _ & F5).
    rewrite existsb_false_forall in He. specialize (He c Hin).
    unfold latin_eligible in He.
    rewrite (isalnum_ascii c Hca), (F5 Hc), F1 in He. discriminate.
Qed.

(** X5.  On a text of ASCII characters the vocabulary is, token by token,
    the token stripped of the nine characters of the punctuation literal at
    both ends and lower-cased, kept when it has two characters or more and
    is made of letters, digits and the eight marks only; a token with any
    other character in what is left of it is dropped as a whole. *)
Theorem ascii_text_vocabulary_correct (text : str) :
  forallb is_ascii text = true ->
  extract_vocabulary text = ascii_text_vocabulary text.
Proof.
  intros Ha. rewrite extract_vocabulary_eq.
  unfold vocabulary_filter, vocabulary, ascii_text_vocabulary.
  rewrite flat_map_flat_map. apply flat_map_filter_map. intros t Ht.
  apply split_token in Ht as (Hne & Hns & Hin).
  apply (ascii_token_units Hne); [|exact Hns].
  apply (forallb_incl is_ascii t text Hin Ha).
Qed.

End TokenizerFacts.

(** X6.  [is_english_word] accepts the words made of one or more
    characters of the English class, and also such a word followed by one
    newline, which the dollar anchor lets through; it accepts nothing
    else. *)
Theorem is_english_word_newline (w : str) :
  is_english_word w = true <->
  matches_english_pattern w \/
  exists w', w = w' ++ [10%N] /\ matches_english_pattern w'.
Proof.
  split.
  - induction w as [|c w IH]; [discriminate|].
    cbn [is_english_word]. intros H. apply andb_true_iff in H as [Hc H].
    apply english_class_pattern in Hc.
    apply orb_true_iff in H as [H|H];
      [apply orb_true_iff in H as [H|H]|].
    + apply null_true_iff in H. subst w. left.
      split; [congruence | constructor; [exact Hc | constructor]].
    + destruct w as [|b [|b' r]]; try discriminate. simpl in H.
      apply N.eqb_eq in H. subst b. right. exists [c].
      split; [reflexivity|].
      split; [congruence | constructor; [exact Hc | constructor]].
    + destruct (IH H) as [[Hne Hf]|(w' & -> & [Hne Hf])].
      * left. split; [congruence | now constructor].
      * right. exists (c :: w'). split; [reflexivity|].
        split; [congruence | now constructor].
  - intros [[Hne Hf]|(w' & -> & [Hne Hf])].
    + apply class_is_english_word; [exact Hne|].
      now apply forallb_class_pattern.
    + revert Hne Hf. induction w' as [|c w' IH]; intros Hne Hf;
        [now contradiction Hne|].
      inversion Hf as [|? ? Hc Hf']; subst.
      apply english_class_pattern in Hc.
      cbn [app is_english_word]. rewrite Hc. cbn [andb].
      destruct w' as [|b r]; [reflexivity|].
      rewrite IH by (congruence || assumption). apply orb_true_r.
Qed.

(* ================================================================== *)
(** * Further properties of the dictionaries *)

Section DictMoreFacts.

Variables K V : Type.
Variable eqb : K -> K -> bool.
Hypothesis eqb_eq : forall a b, eqb a b = true <-> a = b.
Variable d : V.

Lemma update_not_nil f k (m : list (K * V)) : Dict.update eqb d f k m <> [].
Proof.
  destruct m as [|[k0 v] m]; simpl; [discriminate|].
  destruct (eqb k k0); discriminate.
Qed.

Lemma get_not_in k (m : list (K * V)) :
  ~ In k (Dict.keys m) -> Dict.get eqb d k m = d.
Proof.
  induction m as [|[k0 v] m IH]; simpl; [reflexivity|]. intros H.
  destruct (eqb k k0) eqn:E.
  - apply eqb_eq in E. subst. tauto.
  - apply IH. tauto.
Qed.

Lemma existsb_eqb_In k (l : list K) : existsb (eqb k) l = true <-> In k l.
Proof.
  rewrite existsb_exists. split.
  - intros (x & Hx & E). apply eqb_eq in E. now subst.
  - intros H. exists k. split; [exact H | now apply eqb_eq].
Qed.

Lemma update_Forall_kv (Q : K * V -> Prop) f k (m : list (K * V)) :
  Q (k, f d) -> (forall v, Q (k, v) -> Q (k, f v)) ->
  Forall Q m -> Forall Q (Dict.update eqb d f k m).
Proof.
  intros Hd Hf. induction m as [|[k0 v] m IH]; simpl; intros H.
  - repeat constructor. exact Hd.
  - inversion H as [|? ? Hv Hm]; subst.
    destruct (eqb k k0) eqn:E; constructor; auto.
    apply eqb_eq in E. subst k0. now apply Hf.
Qed.

Lemma update_total_kv (g : K -> V -> Z) f k (m : list (K * V)) :
  g k d = 0%Z ->
  fold_right Z.add 0%Z
    (map (fun kv => g (fst kv) (snd kv)) (Dict.update eqb d f k m)) =
  (fold_right Z.add 0%Z (map (fun kv => g (fst kv) (snd kv)) m)
   + (g k (f (Dict.get eqb d k m)) - g k (Dict.get eqb d k m)))%Z.
Proof.
  intros Hd. induction m as [|[k0 v] m IH]; simpl.
  - lia.
  - destruct (eqb k k0) eqn:E; simpl.
    + apply eqb_eq in E. subst k0. lia.
    + rewrite IH. lia.
Qed.

End DictMoreFacts.

Lemma firstn_skipn_sorted (A : Type) (R : A -> A -> Prop) (n : nat)
    (l : list A) x y :
  StronglySorted R l -> In x (firstn n l) -> In y (skipn n l) -> R x y.
Proof.
  revert n. induction l as [|a l IH]; intros n Hs Hx Hy.
  - rewrite firstn_nil in Hx. contradiction.
  - destruct n as [|n]; simpl in Hx, Hy; [contradiction|].
    inversion Hs as [|? ? Hs' Hf]; subst. destruct Hx as [<-|Hx].
    + rewrite Forall_forall in Hf. apply Hf.
      rewrite <- (firstn_skipn n l). apply in_or_app. now right.
    + now apply (IH n).
Qed.

Lemma firstn_incl (A : Type) (n : nat) (l : list A) x :
  In x (firstn n l) -> In x l.
Proof.
  intros H. rewrite <- (firstn_skipn n l). apply in_or_app. now left.
Qed.

Lemma NoDup_firstn_of (A : Type) (n : nat) (l : list A) :
  NoDup l -> NoDup (firstn n l).
Proof.
  intros H. rewrite <- (firstn_skipn n l) in H.
  now apply NoDup_app_remove_r in H.
Qed.

Lemma py_min_spec (x : Z) (l : list Z) :
  In (py_min x l) (x :: l) /\
  forall z, In z (x :: l) -> (py_min x l <= z)%Z.
Proof.
  unfold py_min. revert x. induction l as [|a l IH]; intros x; simpl.
  - split; [now left|]. intros z [<-|[]]. lia.
  - destruct (IH (Z.min x a)) as [Hin Hle]. split.
    + destruct Hin as [H|H]; [|now right; right].
      rewrite <- H. destruct (Z.min_spec x a) as [[_ ->]|[_ ->]]; auto.
    + intros z [<-|[<-|Hz]].
      * specialize (Hle (Z.min x a) (or_introl eq_refl)). lia.
      * specialize (Hle (Z.min x a) (or_introl eq_refl)). lia.
      * apply Hle. now right.
Qed.

Lemma py_max_spec (x : Z) (l : list Z) :
  In (py_max x l) (x :: l) /\
  forall z, In z (x :: l) -> (z <= py_max x l)%Z.
Proof.
  unfold py_max. revert x. induction l as [|a l IH]; intros x; simpl.
  - split; [now left|]. intros z [<-|[]]. lia.
  - destruct (IH (Z.max x a)) as [Hin Hle]. split.
    + destruct Hin as [H|H]; [|now right; right].
      rewrite <- H. destruct (Z.max_spec x a) as [[_ ->]|[_ ->]]; auto.
    + intros z [<-|[<-|Hz]].
      * specialize (Hle (Z.max x a) (or_introl eq_refl)). lia.
      * specialize (Hle (Z.max x a) (or_introl eq_refl)). lia.
      * apply Hle. now right.
Qed.

Lemma sum_map_permutation (A : Type) (f : A -> Z) (l l' : list A) :
  Permutation l l' ->
  fold_right Z.add 0%Z (map f l) = fold_right Z.add 0%Z (map f l').
Proof. induction 1; simpl; lia. Qed.

(* ================================================================== *)
(** * Further properties of the full-vocabulary analyzer *)

Lemma songs_processed_count_words (y : Z) (ws : list str) (a : analyzer) :
  songs_processed (fold_left (count_word y) ws a) = songs_processed a.
Proof.
  revert a. induction ws as [|w ws IH]; intros a; simpl; [reflexivity|].
  now rewrite IH.
Qed.

Lemma keys_count_word (y : Z) (a : analyzer) (w : str) :
  Dict.keys (vocab_by_year (count_word y a w)) =
  if existsb (Z.eqb y) (Dict.keys (vocab_by_year a))
  then Dict.keys (vocab_by_year a)
  else Dict.keys (vocab_by_year a) ++ [y].
Proof. unfold count_word. simpl. apply keys_update. Qed.

Lemma keys_count_words (y : Z) (ws : list str) (a : analyzer) :
  Dict.keys (vocab_by_year (fold_left (count_word y) ws a)) =
  if null ws || existsb (Z.eqb y) (Dict.keys (vocab_by_year a))
  then Dict.keys (vocab_by_year a)
  else Dict.keys (vocab_by_year a) ++ [y].
Proof.
  revert a. induction ws as [|w ws IH]; intros a; [reflexivity|].
  cbn [fold_left null orb]. rewrite IH, keys_count_word.
  destruct (existsb (Z.eqb y) (Dict.keys (vocab_by_year a))) eqn:E.
  - rewrite E. now rewrite orb_true_r.
  - rewrite existsb_app, E. simpl. rewrite Z.eqb_refl. simpl.
    now rewrite orb_true_r.
Qed.

Lemma counter_ok_update (w : str) (c : counter) :
  accepted_word w ->
  (c = [] \/ counter_ok c) ->
  counter_ok (Dict.update str_eqb 0%Z (fun n => n + 1)%Z w c).
Proof.
  intros Hw [->|(Hne & Hnd & Hf)].
  - simpl. split; [discriminate|]. split.
    + constructor; [simpl; tauto | constructor].
    + constructor; [simpl; split; [exact Hw | lia] | constructor].
  - split; [apply update_not_nil|]. split.
    + apply keys_update_NoDup; [exact str_eqb_eq | exact Hnd].
    + apply (update_Forall_kv str_eqb str_eqb_eq); [| |exact Hf]; simpl.
      * split; [exact Hw | lia].
      * intros v [_ Hv]. split; [exact Hw | lia].
Qed.

Lemma table_ok_count_word (y : Z) (a : analyzer) (w : str) :
  y <> 0%Z -> accepted_word w ->
  table_ok (vocab_by_year a) ->
  table_ok (vocab_by_year (count_word y a w)).
Proof.
  intros Hy Hw (Hnd & H0 & Hf). split; [|split].
  - unfold count_word. simpl.
    apply keys_update_NoDup; [exact Z.eqb_eq | exact Hnd].
  - rewrite keys_count_word.
    destruct (existsb (Z.eqb y) (Dict.keys (vocab_by_year a)));
      [exact H0|].
    intros Hin. apply in_app_or in Hin as [Hin|[Hin|[]]]; auto.
  - unfold count_word. simpl.
    apply (update_Forall Z.eqb [] counter_ok); [| |exact Hf].
    + apply counter_ok_update; auto.
    + intros c Hc. apply counter_ok_update; auto.
Qed.

Lemma table_ok_count_words (y : Z) (ws : list str) (a : analyzer) :
  y <> 0%Z -> Forall accepted_word ws ->
  table_ok (vocab_by_year a) ->
  table_ok (vocab_by_year (fold_left (count_word y) ws a)).
Proof.
  intros Hy. revert a. induction ws as [|w ws IH]; intros a Hf Ha;
    [exact Ha|].
  inversion Hf; subst. simpl. apply IH; [assumption|].
  now apply table_ok_count_word.
Qed.

Section FullVocabularyMoreFacts.

Context {U : Unicode} {J : Segmenter}.

(** [process_row] in terms of what the row brings. *)
Lemma process_row_words (a : analyzer) (r : row) :
  process_row a r =
  match row_words r with
  | None => a
  | Some (y, ws) =>
      if null ws then a else song_done (fold_left (count_word y) ws a)
  end.
Proof.
  destruct r as [[|y|] [l|]]; unfold process_row, row_words; simpl;
    try reflexivity.
  - destruct ((y =? 0)%Z || null l); reflexivity.
  - destruct (y =? 0)%Z; reflexivity.
Qed.

Lemma row_words_some (r : row) (y : Z) (ws : list str) :
  row_words r = Some (y, ws) ->
  y <> 0%Z /\ Forall accepted_word ws /\ ~ row_skipped r /\
  ws = extract_vocabulary (read_lyrics (row_lyrics r)).
Proof.
  destruct r as [[|y0|] [l|]]; unfold row_words; simpl; try discriminate.
  destruct (y0 =? 0)%Z eqn:Ey; simpl; [discriminate|].
  destruct (null l) eqn:El; [discriminate|].
  intros H. injection H as <- <-. apply Z.eqb_neq in Ey.
  apply null_false_iff in El. split; [exact Ey|]. split; [|split].
  - apply Forall_forall. intros w. apply extract_vocabulary_accepted.
  - unfold row_skipped. simpl.
    intros [H|[H|[H|[H|H]]]]; congruence.
  - reflexivity.
Qed.

Lemma row_words_none (r : row) : row_words r = None <-> row_skipped r.
Proof.
  unfold row_skipped.
  destruct r as [[|y0|] [l|]]; unfold row_words; simpl;
    try (split; [auto 6 | reflexivity]).
  destruct (Z.eqb_spec y0 0) as [->|Hy]; simpl; [split; auto 6|].
  destruct l as [|c l]; simpl; [split; auto 6|].
  split; [discriminate|]. intros [H|[H|[H|[H|H]]]]; congruence.
Qed.

Lemma entry_process_row (a : analyzer) (r : row) y w :
  entry (process_row a r) y w = (entry a y w + row_count y w r)%Z.
Proof.
  rewrite process_row_words. unfold row_count.
  destruct (row_words r) as [[y' ws]|]; [|lia].
  destruct (null ws) eqn:E.
  - apply null_true_iff in E. subst ws. unfold occurrences. simpl.
    destruct (y =? y')%Z; lia.
  - rewrite entry_song_done. apply entry_count_words.
Qed.

Lemma totals_process_row (a : analyzer) (r : row) :
  total_vocab_count (process_row a r) =
    (total_vocab_count a + row_total r)%Z /\
  songs_processed (process_row a r) = (songs_processed a + row_song r)%Z.
Proof.
  rewrite process_row_words. unfold row_total, row_song.
  destruct (row_words r) as [[y' ws]|]; [|split; lia].
  destruct (null ws) eqn:E.
  - apply null_true_iff in E. subst ws. simpl. split; lia.
  - simpl. rewrite total_count_words, songs_processed_count_words.
    split; lia.
Qed.

Lemma analyze_csv_file_sums (rows : list row) (a : analyzer) :
  (forall y w,
     entry (analyze_csv_file rows a) y w =
     (entry a y w + fold_right Z.add 0 (map (row_count y w) rows))%Z) /\
  total_vocab_count (analyze_csv_file rows a) =
    (total_vocab_count a + fold_right Z.add 0 (map row_total rows))%Z /\
  songs_processed (analyze_csv_file rows a) =
    (songs_processed a + fold_right Z.add 0 (map row_song rows))%Z.
Proof.
  unfold analyze_csv_file. revert a.
  induction rows as [|r rows IH]; intros a; simpl.
  - repeat split; intros; lia.
  - destruct (IH (process_row a r)) as (I1 & I2 & I3).
    destruct (totals_process_row a r) as [T1 T2].
    split; [|split].
    + intros y w. rewrite I1, entry_process_row. lia.
    + rewrite I2, T1. lia.
    + rewrite I3, T2. lia.
Qed.

Lemma process_row_ok (a : analyzer) (r : row) :
  analyzer_ok a -> analyzer_ok (process_row a r).
Proof.
  intros Ha. pose proof Ha as (Ht & H1 & H2 & H3).
  rewrite process_row_words.
  destruct (row_words r) as [[y ws]|] eqn:Er; [|exact Ha].
  destruct (row_words_some r Er) as (Hy & Hf & _).
  destruct (null ws) eqn:En; [exact Ha|].
  apply null_false_iff in En.
  pose proof (keys_count_words y ws a) as Hk.
  replace (null ws) with false in Hk by (symmetry; now apply null_false_iff).
  cbn [orb] in Hk.
  assert (Hlen : (Z.of_nat (length (vocab_by_year
                    (fold_left (count_word y) ws a))) <=
                  Z.of_nat (length (vocab_by_year a)) + 1)%Z).
  { rewrite <- (length_map fst (vocab_by_year (fold_left _ ws a))).
    fold (Dict.keys (vocab_by_year (fold_left (count_word y) ws a))).
    rewrite Hk.
    destruct (existsb (Z.eqb y) (Dict.keys (vocab_by_year a)));
      unfold Dict.keys; rewrite ?length_app, !length_map; simpl; lia. }
  assert (Hws : (1 <= Z.of_nat (length ws))%Z).
  { destruct ws; [congruence | simpl; lia]. }
  unfold analyzer_ok. simpl.
  rewrite total_count_words, songs_processed_count_words.
  split; [now apply table_ok_count_words|]. split; [lia|].
  split; [lia|]. intros _ E.
  assert (Hkn : Dict.keys (vocab_by_year (fold_left (count_word y) ws a))
                = []) by now rewrite E.
  rewrite Hk in Hkn.
  destruct (existsb (Z.eqb y) (Dict.keys (vocab_by_year a))) eqn:Ex.
  - rewrite Hkn in Ex. discriminate.
  - destruct (Dict.keys (vocab_by_year a)); discriminate.
Qed.

Lemma analyze_csv_file_ok (rows : list row) :
  analyzer_ok (analyze_csv_file rows new_analyzer).
Proof.
  unfold analyze_csv_file. apply fold_left_invariant.
  - unfold analyzer_ok, table_ok. simpl.
    repeat split; try constructor; try lia; auto.
  - intros a r. apply process_row_ok.
Qed.

Lemma row_song_le (rows : list row) :
  (0 <= fold_right Z.add 0 (map row_song rows) <=
   Z.of_nat (length rows))%Z.
Proof.
  induction rows as [|r rows IH]; simpl; [lia|].
  assert (0 <= row_song r <= 1)%Z; [|lia].
  unfold row_song. destruct (row_words r) as [[y ws]|]; [|lia].
  destruct (null ws); lia.
Qed.

Lemma counter_ok_sizes (c : counter) :
  counter_ok c ->
  (1 <= Z.of_nat (length c) <= fold_right Z.add 0 (map snd c))%Z.
Proof.
  intros (Hne & _ & Hf). split.
  - destruct c; [congruence | simpl; lia].
  - clear Hne. induction Hf as [|[w n] c [_ Hn] Hf IH]; simpl in *; lia.
Qed.

Lemma table_sizes (t : list (Z * counter)) :
  Forall (fun yc => counter_ok (snd yc)) t ->
  (Z.of_nat (length t) <=
   fold_right Z.add 0%Z
     (map (fun yc : Z * counter => Z.of_nat (length (snd yc))) t) <=
   table_total t)%Z.
Proof.
  unfold table_total. induction 1 as [|[y c] t Hc Hf IH]; simpl; [lia|].
  pose proof (counter_ok_sizes Hc) as Hsz. unfold counter_total in *.
  simpl in *. lia.
Qed.

(** X7.  After any rows the year-frequency table has no year twice and no
    year 0, and each of its counters has at least one word, no word twice,
    and counts of 1 or more that are the entries read back by year and
    word. *)
Theorem table_structure (rows : list row) :
  let a := analyze_csv_file rows new_analyzer in
  NoDup (Dict.keys (vocab_by_year a)) /\
  ~ In 0%Z (Dict.keys (vocab_by_year a)) /\
  forall y c, In (y, c) (vocab_by_year a) ->
    c <> [] /\ NoDup (Dict.keys c) /\
    forall w n, In (w, n) c -> (1 <= n)%Z /\ entry a y w = n.
Proof.
  intros a. destruct (analyze_csv_file_ok rows) as ((Hnd & H0 & Hf) & _).
  fold a in Hnd, H0, Hf. split; [exact Hnd|]. split; [exact H0|].
  intros y c Hin. rewrite Forall_forall in Hf.
  destruct (Hf _ Hin) as (Hne & Hndc & Hfc). simpl in *.
  split; [exact Hne|]. split; [exact Hndc|].
  intros w n Hw. rewrite Forall_forall in Hfc.
  split; [apply (Hfc _ Hw)|]. unfold entry.
  rewrite (in_get Z.eqb Z.eqb_eq [] y c _ Hnd Hin).
  apply (in_get str_eqb str_eqb_eq 0%Z w n c Hndc Hw).
Qed.

(** X8.  After any rows an entry of the table is above 0 only for a year
    other than 0 and for a word the filter accepts: two code points or
    more, matching the English pattern or starting with a Chinese
    character. *)
Theorem counted_words_accepted (rows : list row) (y : Z) (w : str) :
  (0 < entry (analyze_csv_file rows new_analyzer) y w)%Z ->
  y <> 0%Z /\ accepted_word w.
Proof.
  set (a := analyze_csv_file rows new_analyzer).
  destruct (analyze_csv_file_ok rows) as ((Hnd & H0 & Hf) & _).
  fold a in Hnd, H0, Hf. unfold entry. intros H.
  destruct (in_dec Z.eq_dec y (Dict.keys (vocab_by_year a))) as [Hy|Hy].
  - split; [intros ->; contradiction|].
    pose proof (get_in Z.eqb Z.eqb_eq [] y (vocab_by_year a) Hy) as Hin.
    rewrite Forall_forall in Hf. destruct (Hf _ Hin) as (_ & _ & Hfc).
    simpl in Hfc. set (c := Dict.get Z.eqb [] y (vocab_by_year a)) in *.
    destruct (in_dec (list_eq_dec N.eq_dec) w (Dict.keys c)) as [Hw|Hw].
    + pose proof (get_in str_eqb str_eqb_eq 0%Z w c Hw) as Hwin.
      rewrite Forall_forall in Hfc. apply (Hfc _ Hwin).
    + rewrite (get_not_in str_eqb str_eqb_eq 0%Z w c Hw) in H. lia.
  - rewrite (get_not_in Z.eqb Z.eqb_eq [] y _ Hy) in H. simpl in H. lia.
Qed.

(** X9.  After any rows there are no more years in the table than songs
    processed, no more songs processed than words counted, and no more
    songs processed than rows read. *)
Theorem songs_processed_bounds (rows : list row) :
  let a := analyze_csv_file rows new_analyzer in
  (Z.of_nat (length (vocab_by_year a)) <= songs_processed a)%Z /\
  (songs_processed a <= total_vocab_count a)%Z /\
  (0 <= songs_processed a <= Z.of_nat (length rows))%Z.
Proof.
  intros a. destruct (analyze_csv_file_ok rows) as (_ & H1 & H2 & _).
  fold a in H1, H2. split; [exact H1|]. split; [exact H2|].
  destruct (analyze_csv_file_sums rows new_analyzer) as (_ & _ & H3).
  fold a in H3. rewrite H3. simpl. apply (row_song_le rows).
Qed.

(** X10.  The order of the rows does not matter to what is counted: rows
    read in another order give the same entry for every year and word, the
    same total count and the same number of songs processed. *)
Theorem analysis_order_independent (rows rows' : list row) (a : analyzer) :
  Permutation rows rows' ->
  (forall y w,
     entry (analyze_csv_file rows a) y w =
     entry (analyze_csv_file rows' a) y w) /\
  total_vocab_count (analyze_csv_file rows a) =
    total_vocab_count (analyze_csv_file rows' a) /\
  songs_processed (analyze_csv_file rows a) =
    songs_processed (analyze_csv_file rows' a).
Proof.
  intros Hp.
  destruct (analyze_csv_file_sums rows a) as (E1 & T1 & S1).
  destruct (analyze_csv_file_sums rows' a) as (E2 & T2 & S2).
  split; [|split].
  - intros y w. rewrite E1, E2.
    now rewrite (sum_map_permutation (row_count y w) Hp).
  - rewrite T1, T2. now rewrite (sum_map_permutation row_total Hp).
  - rewrite S1, S2. now rewrite (sum_map_permutation row_song Hp).
Qed.

(** X11.  A row leaves the analyzer as it is exactly when it is passed
    over or its lyrics give no word; any other row counts as one more song
    processed and adds the number of its words to the total count. *)
Theorem process_row_noop (a : analyzer) (r : row) :
  (row_skipped r \/
   extract_vocabulary (read_lyrics (row_lyrics r)) = [] ->
   process_row a r = a) /\
  (~ row_skipped r ->
   extract_vocabulary (read_lyrics (row_lyrics r)) <> [] ->
   songs_processed (process_row a r) = (songs_processed a + 1)%Z /\
   total_vocab_count (process_row a r) =
     (total_vocab_count a +
      Z.of_nat
        (length (extract_vocabulary (read_lyrics (row_lyrics r)))))%Z /\
   process_row a r <> a).
Proof.
  destruct (totals_process_row a r) as [T S].
  rewrite process_row_words in *. unfold row_total, row_song in *.
  destruct (row_words r) as [[y ws]|] eqn:Er.
  - destruct (row_words_some r Er) as (_ & _ & Hns & ->). split.
    + intros [H|H]; [contradiction|]. now rewrite H.
    + intros _ Hne. apply null_false_iff in Hne as Hn.
      rewrite Hn in *. split; [exact S|]. split; [exact T|].
      intros E. rewrite E in S. lia.
  - apply row_words_none in Er. split; [reflexivity | contradiction].
Qed.

(** X12.  After any rows, in the statistics the number of word
    occurrences, summed from the table, is the total count the analyzer
    kept while counting, there are at least as many unique words as years,
    and at least as many word occurrences as unique words. *)
Theorem vocabulary_stats_consistent (rows : list row) :
  let a := analyze_csv_file rows new_analyzer in
  let s := get_vocabulary_stats a in
  vs_total_word_occurrences s = total_vocab_count a /\
  (vs_total_years s <= vs_total_unique_words s)%Z /\
  (vs_total_unique_words s <= vs_total_word_occurrences s)%Z.
Proof.
  intros a s.
  destruct (analyze_csv_file_ok rows) as ((_ & _ & Hf) & H1 & H2 & _).
  destruct (analyze_csv_file_invariants rows) as [Ht _].
  fold a in Hf, H1, H2, Ht.
  assert (E1 : vs_total_word_occurrences s = table_total (vocab_by_year a))
    by reflexivity.
  assert (E2 : vs_total_years s = Z.of_nat (length (vocab_by_year a)))
    by reflexivity.
  pose proof (table_sizes Hf) as Hs.
  change (fold_right Z.add 0%Z
            (map (fun yc : Z * counter => Z.of_nat (length (snd yc)))
               (vocab_by_year a)))
    with (vs_total_unique_words s) in Hs.
  rewrite E1, E2, Ht in *. lia.
Qed.

(** X13.  After any rows the year range of the statistics is absent
    exactly when no song was processed; when present its start is not
    above its end, both are years of the table, and every year of the table
    lies between them. *)
Theorem year_range_correct (rows : list row) :
  let a := analyze_csv_file rows new_analyzer in
  (vs_year_range (get_vocabulary_stats a) = None <->
   songs_processed a = 0%Z) /\
  forall lo hi,
    vs_year_range (get_vocabulary_stats a) = Some (lo, hi) ->
    (lo <= hi)%Z /\
    In lo (Dict.keys (vocab_by_year a)) /\
    In hi (Dict.keys (vocab_by_year a)) /\
    forall y, In y (Dict.keys (vocab_by_year a)) -> (lo <= y <= hi)%Z.
Proof.
  intros a. destruct (analyze_csv_file_ok rows) as (_ & H1 & _ & H3).
  fold a in H1, H3. simpl. unfold year_range, Dict.keys. split.
  - destruct (vocab_by_year a) as [|[y c] t] eqn:E; simpl in *.
    + split; [|reflexivity]. intros _.
      destruct (Z.lt_ge_cases 0 (songs_processed a)) as [Hlt|Hge]; [|lia].
      now contradiction (H3 Hlt).
    + split; [discriminate|]. intros Hs. lia.
  - intros lo hi. destruct (map fst (vocab_by_year a)) as [|y ys] eqn:E;
      [discriminate|].
    intros H. injection H as <- <-.
    destruct (py_min_spec y ys) as [Hmi Hml].
    destruct (py_max_spec y ys) as [Hxi Hxl].
    split; [|split; [exact Hmi | split; [exact Hxi|]]].
    + specialize (Hml _ Hxi). exact Hml.
    + intros z Hz. split; [now apply Hml | now apply Hxl].
Qed.

End FullVocabularyMoreFacts.

(* ================================================================== *)
(** * Further properties of the rankings *)

Lemma rankings_in (top_n : Z) (a : analyzer) y l :
  In (y, l) (generate_yearly_rankings top_n a) ->
  In y (Dict.keys (vocab_by_year a)) /\
  l = firstn (Z.to_nat top_n)
        (sorted count_geb (Dict.get Z.eqb [] y (vocab_by_year a))).
Proof.
  unfold generate_yearly_rankings, most_common. intros H.
  apply in_map_iff in H as (year & E & Hy). injection E as -> <-.
  split; [|reflexivity].
  apply (Permutation_in _ (sorted_perm Z.leb _) Hy).
Qed.

(** X14.  [generate_yearly_rankings(top_n)] has one ranking for each year
    of the table, and the ranking of a year has [top_n] pairs, or all the
    words of the year when there are fewer; for [top_n] of 0 or less every
    ranking is empty. *)
Theorem rankings_length (top_n : Z) (a : analyzer) :
  length (generate_yearly_rankings top_n a) = length (vocab_by_year a) /\
  forall y l, In (y, l) (generate_yearly_rankings top_n a) ->
    Z.of_nat (length l) =
      Z.min (Z.max top_n 0)
        (Z.of_nat (length (Dict.get Z.eqb [] y (vocab_by_year a)))) /\
    ((top_n <= 0)%Z -> l = []).
Proof.
  split.
  - unfold generate_yearly_rankings. rewrite length_map.
    rewrite (Permutation_length (sorted_perm Z.leb _)).
    unfold Dict.keys. apply length_map.
  - intros y l H. apply rankings_in in H as [_ ->]. split.
    + rewrite length_firstn.
      rewrite (Permutation_length (sorted_perm count_geb _)). lia.
    + intros Hn. replace (Z.to_nat top_n) with 0%nat by lia. reflexivity.
Qed.

(** X15.  The ranking for a smaller [top_n] is the beginning of the ranking
    for a larger one, year by year. *)
Theorem rankings_prefix (n m : Z) (a : analyzer) :
  (n <= m)%Z ->
  generate_yearly_rankings n a =
  map (fun yl => (fst yl, firstn (Z.to_nat n) (snd yl)))
    (generate_yearly_rankings m a).
Proof.
  intros H. unfold generate_yearly_rankings, most_common.
  rewrite map_map. apply map_ext. intros y. simpl.
  rewrite firstn_firstn. f_equal. f_equal. lia.
Qed.

Section RankingFacts.

Context {U : Unicode} {J : Segmenter}.

Lemma ranked_year (rows : list row) (top_n : Z) y l :
  let a := analyze_csv_file rows new_analyzer in
  In (y, l) (generate_yearly_rankings top_n a) ->
  let c := Dict.get Z.eqb [] y (vocab_by_year a) in
  counter_ok c /\ l = firstn (Z.to_nat top_n) (sorted count_geb c).
Proof.
  intros a H c. apply rankings_in in H as [Hy ->]. split; [|reflexivity].
  destruct (analyze_csv_file_ok rows) as ((_ & _ & Hf) & _).
  rewrite Forall_forall in Hf.
  apply (Hf _ (get_in Z.eqb Z.eqb_eq [] y _ Hy)).
Qed.

(** X16.  After any rows, the pairs of a ranking carry the counts of the
    table: a pair (word, count) of the ranking of a year is the entry of
    the year and the word, which is 1 or more, and no word comes twice in a
    ranking. *)
Theorem rankings_sound (rows : list row) (top_n : Z) y l :
  let a := analyze_csv_file rows new_analyzer in
  In (y, l) (generate_yearly_rankings top_n a) ->
  NoDup (map fst l) /\
  forall w n, In (w, n) l -> entry a y w = n /\ (1 <= n)%Z.
Proof.
  intros a H. destruct (ranked_year rows top_n y l H) as [Hc ->].
  fold a in Hc. set (c := Dict.get Z.eqb [] y (vocab_by_year a)) in *.
  destruct Hc as (_ & Hnd & Hf).
  pose proof (sorted_perm count_geb c) as Hp. split.
  - rewrite <- firstn_map. apply NoDup_firstn_of.
    apply (Permutation_NoDup (l := map fst c)); [|exact Hnd].
    apply Permutation_map. now symmetry.
  - intros w n Hin. apply firstn_incl in Hin.
    apply (Permutation_in _ Hp) in Hin. split.
    + apply (in_get str_eqb str_eqb_eq 0%Z w n c Hnd Hin).
    + rewrite Forall_forall in Hf. apply (Hf _ Hin).
Qed.

(** X17.  After any rows, a ranking holds the most counted words of its
    year: a word that is not in the ranking has an entry that is not above
    the count of any pair of the ranking. *)
Theorem rankings_top (rows : list row) (top_n : Z) y l :
  let a := analyze_csv_file rows new_analyzer in
  In (y, l) (generate_yearly_rankings top_n a) ->
  forall w, ~ In w (map fst l) ->
  forall w' n', In (w', n') l -> (entry a y w <= n')%Z.
Proof.
  intros a H w Hw w' n' Hin.
  destruct (ranked_year rows top_n y l H) as [Hc ->].
  fold a in Hc. unfold entry.
  set (c := Dict.get Z.eqb [] y (vocab_by_year a)) in *.
  destruct Hc as (_ & Hnd & Hf).
  destruct (ranked_counter c) as (Hp & Hs & _).
  destruct (in_dec (list_eq_dec N.eq_dec) w (Dict.keys c)) as [Hk|Hk].
  - pose proof (get_in str_eqb str_eqb_eq 0%Z w c Hk) as Hwc.
    apply Permutation_sym in Hp. apply (Permutation_in _ Hp) in Hwc.
    rewrite <- (firstn_skipn (Z.to_nat top_n) (sorted count_geb c)) in Hwc.
    apply in_app_or in Hwc as [Hwc|Hwc].
    + exfalso. apply Hw. change w with (fst (w, Dict.get str_eqb 0%Z w c)).
      now apply in_map.
    + apply (@firstn_skipn_sorted _ _ (Z.to_nat top_n) _ _ _ Hs Hin Hwc).
  - rewrite (get_not_in str_eqb str_eqb_eq 0%Z w c Hk).
    apply firstn_incl in Hin. apply (Permutation_in _ Hp) in Hin.
    rewrite Forall_forall in Hf. destruct (Hf _ Hin) as [_ Hn].
    simpl in Hn. lia.
Qed.

End RankingFacts.

(* ================================================================== *)
(** * Further properties of the fixed-keyword analyzer *)

Section FixedKeywordsMoreFacts.

Context {U : Unicode} {J : Segmenter}.

(** [process_keyword_row] in terms of what the row brings. *)
Lemma process_keyword_row_words ks (a : keyword_analyzer) (r : row) :
  process_keyword_row ks a r =
  match row_words r with
  | None => a
  | Some (y, ws) =>
      if null ws then a
      else kw_song_done (fold_left (count_keyword y ws) ks a)
  end.
Proof.
  destruct r as [[|y|] [l|]]; unfold process_keyword_row, row_words; simpl;
    try reflexivity.
  - destruct ((y =? 0)%Z || null l); reflexivity.
  - destruct (y =? 0)%Z; reflexivity.
Qed.

Lemma count_keyword_counters (y : Z) (ws : list str) (a : keyword_analyzer)
    (k : str) :
  kw_songs_processed (count_keyword y ws a k) = kw_songs_processed a /\
  total_matches (count_keyword y ws a k) =
    (total_matches a + matches k ws)%Z.
Proof.
  pose proof (matches_nonneg k ws) as Hm. unfold count_keyword.
  destruct (0 <? matches k ws)%Z eqn:E; simpl; [split; reflexivity|].
  apply Z.ltb_ge in E. split; [reflexivity | lia].
Qed.

Lemma count_keywords_counters (y : Z) (ws ks : list str)
    (a : keyword_analyzer) :
  kw_songs_processed (fold_left (count_keyword y ws) ks a) =
    kw_songs_processed a /\
  total_matches (fold_left (count_keyword y ws) ks a) =
    (total_matches a +
     fold_right Z.add 0 (map (fun k => matches k ws) ks))%Z.
Proof.
  revert a. induction ks as [|k ks IH]; intros a; simpl.
  - split; [reflexivity | lia].
  - destruct (IH (count_keyword y ws a k)) as [I1 I2].
    destruct (count_keyword_counters y ws a k) as [C1 C2].
    rewrite I1, I2, C1, C2. split; [reflexivity | lia].
Qed.

Lemma count_keyword_shape (KS : list str) (y : Z) (ws : list str)
    (a : keyword_analyzer) (k : str) :
  y <> 0%Z -> In k KS ->
  keyword_table_shape KS (keyword_frequencies a) ->
  keyword_table_shape KS (keyword_frequencies (count_keyword y ws a k)).
Proof.
  intros Hy Hk H. unfold count_keyword.
  destruct (0 <? matches k ws)%Z; [|exact H]. simpl.
  apply (update_Forall_kv str_eqb str_eqb_eq); [| |exact H]; simpl.
  - split; [exact Hk|]. split; [discriminate|]. intros [E|[]]. congruence.
  - intros yf (_ & _ & H0). split; [exact Hk|].
    split; [apply update_not_nil|].
    rewrite (keys_update Z.eqb).
    destruct (existsb (Z.eqb y) (Dict.keys yf)); [exact H0|].
    intros Hin. apply in_app_or in Hin as [Hin|[Hin|[]]]; auto.
Qed.

Lemma count_keywords_shape (KS : list str) (y : Z) (ws ks : list str)
    (a : keyword_analyzer) :
  y <> 0%Z -> incl ks KS ->
  keyword_table_shape KS (keyword_frequencies a) ->
  keyword_table_shape KS
    (keyword_frequencies (fold_left (count_keyword y ws) ks a)).
Proof.
  intros Hy. revert a. induction ks as [|k ks IH]; intros a Hi H;
    [exact H|].
  simpl. apply IH.
  - intros x Hx. apply Hi. now right.
  - apply count_keyword_shape; auto. apply Hi. now left.
Qed.

Lemma process_keyword_row_shape ks (a : keyword_analyzer) (r : row) :
  keyword_table_shape ks (keyword_frequencies a) ->
  keyword_table_shape ks (keyword_frequencies (process_keyword_row ks a r)).
Proof.
  intros H. rewrite process_keyword_row_words.
  destruct (row_words r) as [[y ws]|] eqn:Er; [|exact H].
  destruct (row_words_some r Er) as (Hy & _).
  destruct (null ws); [exact H|]. simpl.
  apply count_keywords_shape; auto. apply incl_refl.
Qed.

Lemma analyze_keywords_shape (rows : list row) (ks : list str) :
  keyword_table_shape ks
    (keyword_frequencies (analyze_keywords rows ks new_keyword_analyzer)).
Proof.
  unfold analyze_keywords.
  apply (fold_left_invariant
           (fun a => keyword_table_shape ks (keyword_frequencies a))).
  - constructor.
  - intros a r. apply process_keyword_row_shape.
Qed.

Lemma kw_process_row_sums ks (a : keyword_analyzer) (r : row) :
  (forall k y,
     kw_entry (process_keyword_row ks a r) k y =
     (kw_entry a k y + row_keyword_count ks k y r)%Z) /\
  total_matches (process_keyword_row ks a r) =
    (total_matches a + row_matches ks r)%Z /\
  kw_songs_processed (process_keyword_row ks a r) =
    (kw_songs_processed a + row_song r)%Z.
Proof.
  rewrite process_keyword_row_words.
  unfold row_keyword_count, row_matches, row_song.
  destruct (row_words r) as [[y' ws]|]; [|repeat split; intros; lia].
  destruct (null ws) eqn:E.
  - apply null_true_iff in E. subst ws. split; [|split].
    + intros k y. change (matches k []) with 0%Z.
      destruct (y =? y')%Z; lia.
    + assert (H : forall l : list str,
                fold_right Z.add 0%Z (map (fun k => matches k []) l) = 0%Z).
      { induction l as [|x l IH]; simpl; [reflexivity|].
        rewrite IH. reflexivity. }
      rewrite H. lia.
    + lia.
  - destruct (count_keywords_counters y' ws ks a) as [C1 C2].
    split; [|split].
    + intros k y. apply kw_entry_count_keywords.
    + simpl. exact C2.
    + simpl. rewrite C1. reflexivity.
Qed.

Lemma analyze_keywords_sums (rows : list row) (ks : list str)
    (a : keyword_analyzer) :
  (forall k y,
     kw_entry (analyze_keywords rows ks a) k y =
     (kw_entry a k y +
      fold_right Z.add 0 (map (row_keyword_count ks k y) rows))%Z) /\
  total_matches (analyze_keywords rows ks a) =
    (total_matches a + fold_right Z.add 0 (map (row_matches ks) rows))%Z /\
  kw_songs_processed (analyze_keywords rows ks a) =
    (kw_songs_processed a + fold_right Z.add 0 (map row_song rows))%Z.
Proof.
  unfold analyze_keywords. revert a.
  induction rows as [|r rows IH]; intros a; simpl.
  - repeat split; intros; lia.
  - destruct (IH (process_keyword_row ks a r)) as (I1 & I2 & I3).
    destruct (kw_process_row_sums ks a r) as (P1 & P2 & P3).
    split; [|split].
    + intros k y. rewrite I1, P1. lia.
    + rewrite I2, P2. lia.
    + rewrite I3, P3. lia.
Qed.

(** X18.  After any rows a keyword is in the keyword table exactly when it
    has a count above 0 for some year, and a count is above 0 only for a
    keyword of the keyword list and a year other than 0. *)
Theorem keyword_table_keys (rows : list row) (ks : list str) :
  let a := analyze_keywords rows ks new_keyword_analyzer in
  (forall k, In k (Dict.keys (keyword_frequencies a)) <->
             exists y, (0 < kw_entry a k y)%Z) /\
  (forall k y, (0 < kw_entry a k y)%Z -> In k ks /\ y <> 0%Z).
Proof.
  intros a.
  destruct (analyze_keywords_invariants rows ks) as [_ [Hnd Hok]].
  pose proof (analyze_keywords_shape rows ks) as Hsh.
  fold a in Hnd, Hok, Hsh. unfold keyword_table_shape in Hsh.
  rewrite Forall_forall in Hok, Hsh.
  assert (Hpos : forall k y, (0 < kw_entry a k y)%Z ->
            In k (Dict.keys (keyword_frequencies a)) /\
            In y (Dict.keys
                    (Dict.get str_eqb [] k (keyword_frequencies a)))).
  { intros k y H. unfold kw_entry in H.
    destruct (in_dec (list_eq_dec N.eq_dec) k
                (Dict.keys (keyword_frequencies a))) as [Hk|Hk].
    - split; [exact Hk|].
      destruct (in_dec Z.eq_dec y
                  (Dict.keys (Dict.get str_eqb [] k (keyword_frequencies a))))
        as [Hy|Hy]; [exact Hy|].
      rewrite (get_not_in Z.eqb Z.eqb_eq 0%Z y _ Hy) in H. lia.
    - rewrite (get_not_in str_eqb str_eqb_eq [] k _ Hk) in H.
      simpl in H. lia. }
  split.
  - intros k. split.
    + intros Hk.
      pose proof (get_in str_eqb str_eqb_eq [] k _ Hk) as Hin.
      destruct (Hsh _ Hin) as (_ & Hne & _).
      destruct (Hok _ Hin) as [Hndy Hp]. simpl in *. unfold kw_entry.
      destruct (Dict.get str_eqb [] k (keyword_frequencies a))
        as [|[y n] yf]; [congruence|].
      exists y. simpl. rewrite Z.eqb_refl.
      inversion Hp; subst. assumption.
    + intros [y H]. apply (Hpos k y H).
  - intros k y H. destruct (Hpos k y H) as [Hk Hy].
    pose proof (get_in str_eqb str_eqb_eq [] k _ Hk) as Hin.
    destruct (Hsh _ Hin) as (Hks & _ & H0). simpl in *.
    split; [exact Hks|]. intros ->. contradiction.
Qed.

Lemma keyword_detail_of_sorted (yf : list (Z * Z)) :
  yf <> [] ->
  exists y ys,
    map fst (sorted pair_leb yf) = y :: ys /\
    keyword_detail_of (sorted pair_leb yf) =
      Some {| kd_total_frequency := years_total yf;
              kd_years_active := Z.of_nat (length yf);
              kd_year_range := (py_min y ys, py_max y ys) |}.
Proof.
  intros Hne. pose proof (sorted_perm pair_leb yf) as Hp.
  unfold keyword_detail_of.
  destruct (map fst (sorted pair_leb yf)) as [|y ys] eqn:E.
  - exfalso. apply map_eq_nil in E. rewrite E in Hp.
    apply Permutation_nil in Hp. contradiction.
  - exists y, ys. split; [reflexivity|]. f_equal. f_equal.
    + unfold years_total. now apply sum_map_permutation.
    + f_equal. now apply Permutation_length.
Qed.

Lemma keyword_details_facts (t : list (str * list (Z * Z))) :
  Forall (fun kv => snd kv <> []) t ->
  let data := map (fun kv => (fst kv, sorted pair_leb (snd kv))) t in
  let details :=
    flat_map
      (fun kv =>
         match keyword_detail_of (snd kv) with
         | Some detail => [(fst kv, detail)]
         | None => []
         end) data in
  length (filter (fun kv => negb (null (snd kv))) data) = length t /\
  map fst details = map fst t /\
  fold_right Z.add 0%Z (map (fun kd => kd_total_frequency (snd kd)) details)
    = keyword_table_total t /\
  forall k d, In (k, d) details ->
    exists yf, In (k, yf) t /\
      keyword_detail_of (sorted pair_leb yf) = Some d.
Proof.
  induction 1 as [|[k yf] t Hne Hf IH]; simpl.
  - repeat split. intros k d [].
  - simpl in Hne. destruct IH as (I1 & I2 & I3 & I4).
    destruct (keyword_detail_of_sorted Hne) as (y & ys & E & Hd).
    rewrite Hd. simpl.
    assert (Hn : null (sorted pair_leb yf) = false).
    { destruct (sorted pair_leb yf); [discriminate | reflexivity]. }
    rewrite Hn. simpl. rewrite I1, I2, I3.
    split; [reflexivity|]. split; [reflexivity|].
    split; [unfold keyword_table_total; reflexivity|].
    intros k' d [H|H].
    + injection H as <- <-. exists yf. split; [now left | exact Hd].
    + destruct (I4 k' d H) as (yf' & Hin & Hd').
      exists yf'. split; [now right | exact Hd'].
Qed.

(** X19.  After any rows, in the keyword statistics every keyword of the
    table has data ([keywords_with_data] is [total_keywords], the number of
    keywords of the table), the details name the keywords of the table in
    the order of the table, and the total frequencies of the details add up
    to [total_matches]. *)
Theorem keyword_stats_consistent (rows : list row) (ks : list str) :
  let a := analyze_keywords rows ks new_keyword_analyzer in
  let s := get_keyword_stats a in
  ks_total_keywords s = Z.of_nat (length (keyword_frequencies a)) /\
  ks_keywords_with_data s = ks_total_keywords s /\
  map fst (ks_keyword_details s) = Dict.keys (keyword_frequencies a) /\
  fold_right Z.add 0%Z
    (map (fun kd => kd_total_frequency (snd kd)) (ks_keyword_details s)) =
    ks_total_matches s.
Proof.
  intros a s.
  destruct (analyze_keywords_invariants rows ks) as [Ht _].
  pose proof (analyze_keywords_shape rows ks) as Hsh.
  fold a in Ht, Hsh.
  assert (Hne : Forall (fun kv : str * list (Z * Z) => snd kv <> [])
                  (keyword_frequencies a)).
  { unfold keyword_table_shape in Hsh. rewrite Forall_forall in *.
    intros kv Hkv. apply (Hsh kv Hkv). }
  destruct (keyword_details_facts Hne) as (F1 & F2 & F3 & _).
  unfold s, get_keyword_stats, generate_frequency_data. simpl.
  rewrite length_map. split; [reflexivity|].
  split; [now rewrite F1|]. split; [exact F2|]. now rewrite F3.
Qed.

(** X20.  After any rows, the detail of a keyword in the keyword
    statistics has at least one active year, a total frequency that is the
    sum of the counts of the keyword and is not below the number of active
    years, and a year range whose ends are years where the keyword has a
    count above 0 and between which all such years lie. *)
Theorem keyword_detail_correct (rows : list row) (ks : list str)
    (k : str) (d : keyword_detail) :
  let a := analyze_keywords rows ks new_keyword_analyzer in
  In (k, d) (ks_keyword_details (get_keyword_stats a)) ->
  (1 <= kd_years_active d <= kd_total_frequency d)%Z /\
  kd_total_frequency d =
    years_total (Dict.get str_eqb [] k (keyword_frequencies a)) /\
  (fst (kd_year_range d) <= snd (kd_year_range d))%Z /\
  (0 < kw_entry a k (fst (kd_year_range d)))%Z /\
  (0 < kw_entry a k (snd (kd_year_range d)))%Z /\
  forall y, (0 < kw_entry a k y)%Z ->
    (fst (kd_year_range d) <= y <= snd (kd_year_range d))%Z.
Proof.
  intros a Hin.
  destruct (analyze_keywords_invariants rows ks) as [_ [Hnd Hok]].
  pose proof (analyze_keywords_shape rows ks) as Hsh.
  fold a in Hnd, Hok, Hsh.
  assert (Hne : Forall (fun kv : str * list (Z * Z) => snd kv <> [])
                  (keyword_frequencies a)).
  { unfold keyword_table_shape in Hsh. rewrite Forall_forall in *.
    intros kv Hkv. apply (Hsh kv Hkv). }
  destruct (keyword_details_facts Hne) as (_ & _ & _ & F4).
  destruct (F4 k d Hin) as (yf & Hkv & Hd).
  rewrite Forall_forall in Hok, Hne.
  destruct (Hok _ Hkv) as [Hndy Hpos]. specialize (Hne _ Hkv).
  simpl in Hndy, Hpos, Hne.
  unfold kw_entry. rewrite (in_get str_eqb str_eqb_eq [] k yf _ Hnd Hkv).
  destruct (keyword_detail_of_sorted Hne) as (y0 & ys & E & Hd').
  rewrite Hd' in Hd. injection Hd as <-. simpl.
  assert (Hkeys : forall z, In z (y0 :: ys) <-> In z (Dict.keys yf)).
  { intros z. rewrite <- E. unfold Dict.keys.
    split; apply Permutation_in; apply Permutation_map;
      [|symmetry]; apply sorted_perm. }
  assert (Hval : forall z, In z (Dict.keys yf) ->
                           (0 < Dict.get Z.eqb 0 z yf)%Z).
  { intros z Hz. pose proof (get_in Z.eqb Z.eqb_eq 0%Z z yf Hz) as Hzin.
    rewrite Forall_forall in Hpos. apply (Hpos _ Hzin). }
  destruct (py_min_spec y0 ys) as [Hmi Hml].
  destruct (py_max_spec y0 ys) as [Hxi Hxl].
  split; [|split; [reflexivity|split; [|split; [|split]]]].
  - split; [destruct yf; [congruence | simpl; lia]|].
    unfold years_total. clear -Hpos.
    induction Hpos as [|[z n] yf Hn Hp IH]; simpl in *; lia.
  - apply Hml, Hxi.
  - apply Hval, Hkeys, Hmi.
  - apply Hval, Hkeys, Hxi.
  - intros y Hy.
    destruct (in_dec Z.eq_dec y (Dict.keys yf)) as [Hk|Hk].
    + apply Hkeys in Hk. split; [now apply Hml | now apply Hxl].
    + rewrite (get_not_in Z.eqb Z.eqb_eq 0%Z y yf Hk) in Hy. lia.
Qed.

(** X21.  The order of the rows and the order of the keywords do not
    matter to what is counted: rows and keywords given in another order
    lead to the same count for every keyword and year, the same total of
    matches and the same number of songs processed. *)
Theorem keyword_analysis_order_independent (rows rows' : list row)
    (ks ks' : list str) (a : keyword_analyzer) :
  Permutation rows rows' -> Permutation ks ks' ->
  (forall k y,
     kw_entry (analyze_keywords rows ks a) k y =
     kw_entry (analyze_keywords rows' ks' a) k y) /\
  total_matches (analyze_keywords rows ks a) =
    total_matches (analyze_keywords rows' ks' a) /\
  kw_songs_processed (analyze_keywords rows ks a) =
    kw_songs_processed (analyze_keywords rows' ks' a).
Proof.
  intros Hr Hk.
  destruct (analyze_keywords_sums rows ks a) as (E1 & T1 & S1).
  destruct (analyze_keywords_sums rows' ks' a) as (E2 & T2 & S2).
  split; [|split].
  - intros k y. rewrite E1, E2.
    rewrite (sum_map_permutation (row_keyword_count ks k y) Hr).
    f_equal. f_equal. apply map_ext. intros r.
    unfold row_keyword_count, occurrences.
    now rewrite (proj1 (Permutation_count_occ _ ks ks') Hk k).
  - rewrite T1, T2. rewrite (sum_map_permutation (row_matches ks) Hr).
    f_equal. f_equal. apply map_ext. intros r. unfold row_matches.
    destruct (row_words r) as [[y ws]|]; [|reflexivity].
    now apply sum_map_permutation.
  - rewrite S1, S2. now rewrite (sum_map_permutation row_song Hr).
Qed.

(** X22.  The two analyzers process the same songs: on the same rows the
    number of songs processed in keyword mode, whatever the keywords, is
    the number of songs processed in full-vocabulary mode. *)
Theorem same_songs_processed (rows : list row) (ks : list str) :
  kw_songs_processed (analyze_keywords rows ks new_keyword_analyzer) =
  songs_processed (analyze_csv_file rows new_analyzer).
Proof.
  destruct (analyze_keywords_sums rows ks new_keyword_analyzer)
    as (_ & _ & ->).
  destruct (analyze_csv_file_sums rows new_analyzer) as (_ & _ & ->).
  reflexivity.
Qed.

Lemma matching_total_count_word (k : str) (y y' : Z) (a : analyzer)
    (w : str) :
  matching_total k
    (Dict.get Z.eqb [] y (vocab_by_year (count_word y' a w))) =
  (matching_total k (Dict.get Z.eqb [] y (vocab_by_year a)) +
   if (y =? y')%Z && str_eqb (lower w) (lower k) then 1 else 0)%Z.
Proof.
  unfold count_word. simpl. rewrite (get_update Z.eqb Z.eqb_eq).
  destruct (y =? y')%Z eqn:E; simpl; [|lia].
  apply Z.eqb_eq in E. subst y'. unfold matching_total.
  pose proof
    (update_total_kv str_eqb str_eqb_eq 0%Z
       (fun (w0 : str) (n : Z) =>
          if str_eqb (lower w0) (lower k) then n else 0%Z)
       (fun n => n + 1)%Z w
       (Dict.get Z.eqb [] y (vocab_by_year a))) as H.
  cbv beta in H. rewrite H.
  - destruct (str_eqb (lower w) (lower k)); lia.
  - destruct (str_eqb (lower w) (lower k)); reflexivity.
Qed.

Lemma matching_total_count_words (k : str) (y y' : Z) (ws : list str)
    (a : analyzer) :
  matching_total k
    (Dict.get Z.eqb [] y
       (vocab_by_year (fold_left (count_word y') ws a))) =
  (matching_total k (Dict.get Z.eqb [] y (vocab_by_year a)) +
   if (y =? y')%Z then matches k ws else 0)%Z.
Proof.
  revert a. induction ws as [|w ws IH]; intros a; cbn [fold_left].
  - change (matches k []) with 0%Z. destruct (y =? y')%Z; lia.
  - rewrite IH, matching_total_count_word.
    assert (Hm : matches k (w :: ws) =
                 ((if str_eqb (lower w) (lower k) then 1 else 0) +
                  matches k ws)%Z).
    { unfold matches. cbn [filter].
      destruct (str_eqb (lower w) (lower k)); cbn [length]; lia. }
    rewrite Hm. destruct (y =? y')%Z; cbn [andb]; lia.
Qed.

Lemma matching_total_process_row (k : str) (y : Z) (a : analyzer)
    (r : row) :
  matching_total k
    (Dict.get Z.eqb [] y (vocab_by_year (process_row a r))) =
  (matching_total k (Dict.get Z.eqb [] y (vocab_by_year a)) +
   row_keyword_count [k] k y r)%Z.
Proof.
  rewrite process_row_words. unfold row_keyword_count.
  assert (Ho : occurrences k [k] = 1%Z).
  { unfold occurrences. simpl.
    destruct (list_eq_dec N.eq_dec k k); [reflexivity | congruence]. }
  rewrite Ho.
  destruct (row_words r) as [[y' ws]|]; [|lia].
  destruct (null ws) eqn:E.
  - apply null_true_iff in E. subst ws. change (matches k []) with 0%Z.
    destruct (y =? y')%Z; lia.
  - unfold song_done. cbn [vocab_by_year].
    rewrite matching_total_count_words.
    destruct (y =? y')%Z; lia.
Qed.

Lemma row_keyword_count_factor (ks : list str) (k : str) (y : Z)
    (rows : list row) :
  fold_right Z.add 0%Z (map (row_keyword_count ks k y) rows) =
  (occurrences k ks *
   fold_right Z.add 0%Z (map (row_keyword_count [k] k y) rows))%Z.
Proof.
  assert (Ho : occurrences k [k] = 1%Z).
  { unfold occurrences. simpl.
    destruct (list_eq_dec N.eq_dec k k); [reflexivity | congruence]. }
  induction rows as [|r rows IH]; simpl; [lia|]. rewrite IH.
  unfold row_keyword_count. rewrite Ho.
  destruct (row_words r) as [[y' ws]|]; [|lia].
  destruct (y =? y')%Z; lia.
Qed.

(** X23.  The keyword counts can be read off the full vocabulary table: on
    the same rows, the count of a keyword for a year is the sum of the
    counts, in the year-frequency table, of the words of that year that
    equal the keyword once both are lower-cased, taken once for each time
    the keyword stands in the keyword list. *)
Theorem keyword_counts_from_vocabulary (rows : list row) (ks : list str)
    (k : str) (y : Z) :
  kw_entry (analyze_keywords rows ks new_keyword_analyzer) k y =
  (occurrences k ks *
   matching_total k
     (Dict.get Z.eqb [] y
        (vocab_by_year (analyze_csv_file rows new_analyzer))))%Z.
Proof.
  destruct (analyze_keywords_sums rows ks new_keyword_analyzer)
    as (E & _). rewrite E. clear E.
  change (kw_entry new_keyword_analyzer k y) with 0%Z.
  rewrite row_keyword_count_factor.
  assert (H : forall a,
    matching_total k
      (Dict.get Z.eqb [] y (vocab_by_year (analyze_csv_file rows a))) =
    (matching_total k (Dict.get Z.eqb [] y (vocab_by_year a)) +
     fold_right Z.add 0%Z (map (row_keyword_count [k] k y) rows))%Z).
  { unfold analyze_csv_file. induction rows as [|r rows IH]; intros a;
      simpl; [lia|].
    rewrite IH, matching_total_process_row. lia. }
  rewrite H.
  change (matching_total k
            (Dict.get Z.eqb [] y (vocab_by_year new_analyzer))) with 0%Z.
  lia.
Qed.

Lemma nodup_length_incl (l l' : list Z) (y : Z) :
  incl l' (y :: l) ->
  (length (nodup Z.eq_dec l') <= S (length (nodup Z.eq_dec l)))%nat.
Proof.
  intros H.
  change (S (length (nodup Z.eq_dec l)))
    with (length (y :: nodup Z.eq_dec l)).
  apply NoDup_incl_length; [apply NoDup_nodup|].
  intros z Hz. apply nodup_In in Hz. destruct (H z Hz) as [<-|Hl];
    [now left | right; now apply nodup_In].
Qed.

Lemma years_update_incl (k : str) (y m : Z)
    (t : list (str * list (Z * Z))) :
  incl
    (flat_map (fun kv => Dict.keys (snd kv))
       (Dict.update str_eqb []
          (Dict.update Z.eqb 0%Z (fun n => n + m)%Z y) k t))
    (y :: flat_map (fun kv => Dict.keys (snd kv)) t).
Proof.
  induction t as [|[k0 yf] t IH]; simpl.
  - intros z [<-|[]]. now left.
  - destruct (str_eqb k k0); simpl.
    + intros z Hz. apply in_app_or in Hz as [Hz|Hz].
      * rewrite (keys_update Z.eqb) in Hz.
        destruct (existsb (Z.eqb y) (Dict.keys yf)).
        -- right. apply in_or_app. now left.
        -- apply in_app_or in Hz as [Hz|[<-|[]]]; [|now left].
           right. apply in_or_app. now left.
      * right. apply in_or_app. now right.
    + intros z Hz. apply in_app_or in Hz as [Hz|Hz].
      * right. apply in_or_app. now left.
      * destruct (IH z Hz) as [<-|H]; [now left|].
        right. apply in_or_app. now right.
Qed.

Lemma years_count_keywords_incl (y : Z) (ws ks : list str)
    (a : keyword_analyzer) :
  incl
    (flat_map (fun kv => Dict.keys (snd kv))
       (keyword_frequencies (fold_left (count_keyword y ws) ks a)))
    (y :: flat_map (fun kv => Dict.keys (snd kv)) (keyword_frequencies a)).
Proof.
  revert a. induction ks as [|k ks IH]; intros a; simpl.
  - intros z Hz. now right.
  - intros z Hz. destruct (IH _ z Hz) as [<-|H]; [now left|].
    unfold count_keyword in H.
    destruct (0 <? matches k ws)%Z; [|now right].
    simpl in H. now apply years_update_incl in H.
Qed.

(** X24.  After any rows the number of years covered, as
    [analyze_keywords] stores it in its statistics, is not above the number
    of songs processed, and a year is among those counted exactly when some
    keyword has a count above 0 for it. *)
Theorem keyword_total_years_bound (rows : list row) (ks : list str) :
  let a := analyze_keywords rows ks new_keyword_analyzer in
  (keyword_total_years a <= kw_songs_processed a)%Z /\
  forall y,
    In y (nodup Z.eq_dec
            (flat_map (fun kv => Dict.keys (snd kv))
               (keyword_frequencies a))) <->
    exists k, (0 < kw_entry a k y)%Z.
Proof.
  intros a. split.
  - unfold a, analyze_keywords, keyword_total_years.
    apply (fold_left_invariant
             (fun a => (Z.of_nat
                          (length
                             (nodup Z.eq_dec
                                (flat_map (fun kv => Dict.keys (snd kv))
                                   (keyword_frequencies a)))) <=
                        kw_songs_processed a)%Z)).
    + simpl. lia.
    + intros a0 r H. rewrite process_keyword_row_words.
      destruct (row_words r) as [[y ws]|]; [|exact H].
      destruct (null ws); [exact H|]. simpl.
      destruct (count_keywords_counters y ws ks a0) as [-> _].
      pose proof (nodup_length_incl (years_count_keywords_incl y ws ks a0)).
      lia.
  - intros y. rewrite nodup_In, in_flat_map.
    destruct (analyze_keywords_invariants rows ks) as [_ [Hnd Hok]].
    fold a in Hnd, Hok. rewrite Forall_forall in Hok. split.
    + intros ([k yf] & Hkv & Hy). simpl in Hy. exists k.
      destruct (Hok _ Hkv) as [_ Hpos]. simpl in Hpos.
      unfold kw_entry.
      rewrite (in_get str_eqb str_eqb_eq [] k yf _ Hnd Hkv).
      pose proof (get_in Z.eqb Z.eqb_eq 0%Z y yf Hy) as Hin.
      rewrite Forall_forall in Hpos. apply (Hpos _ Hin).
    + intros [k H]. unfold kw_entry in H.
      destruct (in_dec (list_eq_dec N.eq_dec) k
                  (Dict.keys (keyword_frequencies a))) as [Hk|Hk].
      * exists (k, Dict.get str_eqb [] k (keyword_frequencies a)).
        split; [now apply (get_in str_eqb str_eqb_eq)|]. simpl.
        destruct (in_dec Z.eq_dec y
                    (Dict.keys
                       (Dict.get str_eqb [] k (keyword_frequencies a))))
          as [Hy|Hy]; [exact Hy|].
        rewrite (get_not_in Z.eqb Z.eqb_eq 0%Z y _ Hy) in H. lia.
      * rewrite (get_not_in str_eqb str_eqb_eq [] k _ Hk) in H.
        simpl in H. lia.
Qed.

End FixedKeywordsMoreFacts.

(* ================================================================== *)
(** * The filter on its own results, and mixed tokens *)

Lemma lstrip_head p (s : str) :
  match lstrip p s with [] => True | c :: _ => p c = false end.
Proof.
  induction s as [|c s IH]; simpl; [exact I|].
  destruct (p c) eqn:E; [exact IH | exact E].
Qed.

Lemma rstrip_head p (s : str) :
  match s with [] => True | c :: _ => p c = false end ->
  match rstrip p s with [] => True | c :: _ => p c = false end.
Proof.
  destruct s as [|c s]; simpl; [auto|]. intros Hc. rewrite Hc. simpl.
  exact Hc.
Qed.

Lemma lstrip_stable p (s : str) :
  match s with [] => True | c :: _ => p c = false end -> lstrip p s = s.
Proof. destruct s as [|c s]; simpl; [auto|]. now intros ->. Qed.

Lemma rstrip_idempotent p (s : str) : rstrip p (rstrip p s) = rstrip p s.
Proof.
  induction s as [|c s IH]; simpl; [reflexivity|].
  destruct (p c && null (rstrip p s)) eqn:E; [reflexivity|].
  simpl. rewrite IH, E. reflexivity.
Qed.

Lemma strip_idempotent p (s : str) : strip p (strip p s) = strip p s.
Proof.
  unfold strip.
  rewrite (lstrip_stable p (rstrip p (lstrip p s))).
  - apply rstrip_idempotent.
  - apply rstrip_head, lstrip_head.
Qed.

Lemma eligible_ascii_not_space c :
  is_ascii c = true ->
  (ascii_isalnum c || mem c punctuation_literal) = true ->
  isspace c = false.
Proof.
  intros Ha H.
  pose proof
    (ascii_enum
       (fun c => implb (ascii_isalnum c || mem c punctuation_literal)
                   (negb (isspace c))) eq_refl c Ha) as E.
  cbv beta in E. rewrite H in E. simpl in E. now apply negb_true_iff.
Qed.

Section FilterFacts.

Context {U : Unicode} {J : Segmenter}.

(** X25.  The filter changes nothing in what [extract_vocabulary] returns:
    every returned word passes the filter again as it is, and so begins and
    ends with a character that is not whitespace. *)
Theorem extract_vocabulary_filtered (text : str) :
  vocabulary_filter (extract_vocabulary text) = extract_vocabulary text /\
  forall w, In w (extract_vocabulary text) -> strip isspace w = w.
Proof.
  assert (H : forall w, In w (extract_vocabulary text) ->
                strip isspace w = w /\ filter_unit w = [w]).
  { intros w. rewrite extract_vocabulary_eq. unfold vocabulary_filter.
    rewrite in_flat_map. intros (u & _ & Hu).
    pose proof Hu as Hu'. apply filter_unit_in in Hu' as (E & _).
    assert (Es : strip isspace w = w).
    { rewrite <- E. apply strip_idempotent. }
    split; [exact Es|]. unfold filter_unit in *. rewrite Es.
    rewrite E in Hu.
    destruct (long_enough w); [|contradiction].
    destruct (is_english_word w || first_is_chinese w);
      [reflexivity | contradiction]. }
  split.
  - unfold vocabulary_filter at 1. apply flat_map_singletons.
    intros w Hw. apply (H w Hw).
  - intros w Hw. apply (H w Hw).
Qed.

(** X26.  A text that is one token with Chinese characters and
    Latin-eligible characters that are all ASCII, with an oracle that
    answers with segments of Chinese characters, gives the segments of two
    characters or more and then the lower-cased English part, which is
    kept only if it has two characters or more, all of them letters, digits
    or one of the eight marks: a single letter, or a part with a backslash,
    is dropped. *)
Theorem mixed_token_vocabulary (token : str) :
  forallb (fun c => negb (isspace c)) token = true ->
  existsb is_chinese_character token = true ->
  existsb latin_eligible token = true ->
  forallb is_ascii (english_part token) = true ->
  (forall w, In w (lcut (chinese_part token)) ->
             forallb is_chinese_character w = true) ->
  extract_vocabulary token =
    filter long_enough (lcut (chinese_part token)) ++
    (if long_enough (ascii_lower (english_part token)) &&
        forallb english_class (ascii_lower (english_part token))
     then [ascii_lower (english_part token)] else []).
Proof.
  intros Hws Hc He Ha Hor.
  assert (Hne : token <> []) by (intros ->; discriminate).
  rewrite extract_vocabulary_eq. unfold vocabulary.
  rewrite (split_one_token isspace Hne Hws). simpl. rewrite app_nil_r.
  assert (Hu : token_units token =
               filter long_enough (lcut (chinese_part token)) ++
               [ascii_lower (english_part token)]).
  { pose proof (existsb_filter_nonempty _ _ Hc) as Hcn.
    pose proof (existsb_filter_nonempty _ _ He) as Hen.
    fold (chinese_part token) in Hcn. fold (english_part token) in Hen.
    apply null_false_iff in Hcn, Hen. apply null_false_iff in Hne as Hn.
    unfold token_units.
    rewrite (strip_id isspace token Hws), Hn, Hc, He, Hcn, Hen.
    cbn [andb]. now rewrite (lower_ascii _ Ha). }
  rewrite Hu. unfold vocabulary_filter. rewrite flat_map_app. f_equal.
  - apply flat_map_singletons. intros w Hw.
    apply filter_In in Hw as [Hw Hl]. specialize (Hor w Hw).
    assert (Hs : forallb (fun c => negb (isspace c)) w = true).
    { rewrite forallb_forall in *. intros c Hcw.
      apply negb_true_iff, chinese_not_space, Hor, Hcw. }
    unfold filter_unit. rewrite (strip_id isspace w Hs), Hl.
    destruct w as [|c w]; [discriminate|]. simpl in Hor.
    apply andb_true_iff in Hor as [Hcc _]. simpl. rewrite Hcc.
    now rewrite orb_true_r.
  - cbn [flat_map]. rewrite app_nil_r.
    set (e := english_part token) in *.
    assert (Hes : forallb (fun c => negb (isspace c)) e = true).
    { apply forallb_forall. intros c Hce. apply negb_true_iff.
      rewrite forallb_forall in Ha. pose proof (Ha c Hce) as Hca.
      apply (eligible_ascii_not_space c Hca).
      unfold e, english_part in Hce. apply filter_In in Hce as [_ Hl].
      unfold latin_eligible in Hl. apply andb_true_iff in Hl as [Hl _].
      now rewrite (isalnum_ascii c Hca) in Hl. }
    destruct (ascii_lower_facts e Ha Hes) as (_ & L2 & L3 & _).
    unfold filter_unit. rewrite (strip_id isspace _ L2), L3, orb_false_r.
    rewrite (is_english_word_no_space _ L2).
    destruct (long_enough (ascii_lower e)) eqn:Hl; [|reflexivity].
    assert (Hnn : null (ascii_lower e) = false).
    { destruct (ascii_lower e); [discriminate | reflexivity]. }
    now rewrite Hnn.
Qed.

End FilterFacts.

(* ================================================================== *)
(** * The summary of the keyword analysis *)

Lemma get_map_values (K V W : Type) (eqb : K -> K -> bool) (d : V)
    (f : V -> W) (k : K) (m : list (K * V)) :
  Dict.get eqb (f d) k (map (fun kv => (fst kv, f (snd kv))) m) =
  f (Dict.get eqb d k m).
Proof.
  induction m as [|[k0 v] m IH]; simpl; [reflexivity|].
  destruct (eqb k k0); [reflexivity | exact IH].
Qed.

Section SummaryFacts.

Context {U : Unicode} {J : Segmenter}.

(** X27.  After any rows [print_summary] never prints that a keyword has
    no occurrences: for a keyword it prints that no data is available
    exactly when the keyword has no count for any year, and otherwise the
    pairs (year, count) of the years where the count is above 0, with
    their sum as the total. *)
Theorem print_summary_entries (rows : list row) (ks keywords : list str)
    (k : str) (e : summary_entry) :
  let a := analyze_keywords rows ks new_keyword_analyzer in
  In (k, e) (print_summary keywords a) ->
  e <> NoOccurrences /\
  (e = NoData <-> forall y, kw_entry a k y = 0%Z) /\
  forall l t, e = FrequencyByYear l t ->
    t = fold_right Z.add 0%Z (map snd l) /\
    forall y n, In (y, n) l <-> (0 < n)%Z /\ kw_entry a k y = n.
Proof.
  intros a Hin.
  destruct (analyze_keywords_invariants rows ks) as [_ [Hnd Hok]].
  pose proof (analyze_keywords_shape rows ks) as Hsh.
  fold a in Hnd, Hok, Hsh. unfold keyword_table_shape in Hsh.
  rewrite Forall_forall in Hok, Hsh.
  unfold print_summary in Hin. apply in_map_iff in Hin as (k' & E & _).
  injection E as -> <-.
  assert (Hkeys : Dict.keys (generate_frequency_data a) =
                  Dict.keys (keyword_frequencies a)).
  { unfold generate_frequency_data, Dict.keys. now rewrite map_map. }
  assert (Hget : Dict.get str_eqb [] k (generate_frequency_data a) =
                 sorted pair_leb
                   (Dict.get str_eqb [] k (keyword_frequencies a))).
  { unfold generate_frequency_data.
    apply (get_map_values str_eqb [] (sorted pair_leb)). }
  rewrite Hkeys, Hget.
  set (yf := Dict.get str_eqb [] k (keyword_frequencies a)).
  pose proof (sorted_perm pair_leb yf) as Hp.
  destruct (existsb (str_eqb k) (Dict.keys (keyword_frequencies a))) eqn:Ex.
  - apply (existsb_eqb_In str_eqb str_eqb_eq) in Ex.
    pose proof (get_in str_eqb str_eqb_eq [] k _ Ex) as Hkv. fold yf in Hkv.
    destruct (Hsh _ Hkv) as (_ & Hne & _).
    destruct (Hok _ Hkv) as [Hndy Hpos]. simpl in Hne, Hndy, Hpos.
    assert (Hn : null (sorted pair_leb yf) = false).
    { apply null_false_iff. intros En. rewrite En in Hp.
      apply Permutation_nil in Hp. contradiction. }
    rewrite Hn. split; [discriminate|]. split.
    + split; [discriminate|]. intros H0. exfalso.
      destruct yf as [|[y n] yf'] eqn:Eyf; [congruence|].
      specialize (H0 y). unfold kw_entry in H0. fold yf in H0.
      rewrite Eyf in H0. simpl in H0. rewrite Z.eqb_refl in H0.
      inversion Hpos; subst. simpl in *. lia.
    + intros l t E. injection E as <- <-. split; [reflexivity|].
      intros y n. unfold kw_entry. fold yf. rewrite Forall_forall in Hpos.
      split.
      * intros Hyn. apply (Permutation_in _ Hp) in Hyn.
        split; [apply (Hpos _ Hyn)|].
        apply (in_get Z.eqb Z.eqb_eq 0%Z y n yf Hndy Hyn).
      * intros [Hn0 Hg].
        apply (Permutation_in _ (Permutation_sym Hp)).
        destruct (in_dec Z.eq_dec y (Dict.keys yf)) as [Hy|Hy].
        -- rewrite <- Hg. now apply (get_in Z.eqb Z.eqb_eq).
        -- rewrite (get_not_in Z.eqb Z.eqb_eq 0%Z y yf Hy) in Hg. lia.
  - split; [discriminate|]. split; [|discriminate].
    split; [|reflexivity]. intros _ y. unfold kw_entry. fold yf.
    assert (Hk : ~ In k (Dict.keys (keyword_frequencies a))).
    { intros Hk. apply (existsb_eqb_In str_eqb str_eqb_eq) in Hk.
      congruence. }
    unfold yf. rewrite (get_not_in str_eqb str_eqb_eq [] k _ Hk).
    reflexivity.
Qed.

End SummaryFacts.

(* ================================================================== *)
(** * What a mixed token leaves in the result *)

Section MixedTokens.

Context {U : Unicode} {J : Segmenter}.

(** Off the backslash the test of the tokenizer is the test with the eight
    marks. *)
Lemma eligible_without_backslash (c : char) :
  c <> 92%N -> latin_eligible c = eight_mark_eligible c.
Proof.
  intros Hne. unfold latin_eligible, eight_mark_eligible.
  replace (mem c punctuation_literal) with (mem c regex_punctuation);
    [reflexivity|].
  unfold mem, punctuation_literal, regex_punctuation. simpl.
  apply N.eqb_neq in Hne. rewrite Hne. reflexivity.
Qed.

Lemma not_accepted_filter_unit (u : str) :
  ~ accepted_word (strip isspace u) -> filter_unit u = [].
Proof.
  intros H. apply (proj2 (filter_unit_spec u)).
  unfold accepted_word in H.
  destruct (le_lt_dec 2 (length (strip isspace u))) as [Hl|Hl];
    [right | left; exact Hl].
  split; intros Hp; apply H; auto.
Qed.

(** C1, amended.  [extract_vocabulary] returns, token after token from
    left to right, the units of the token that pass the filter loop: a
    unit is returned stripped of surrounding whitespace when, so stripped,
    it has two code points or more and matches the English-word pattern or
    starts with a Chinese character, and is not returned otherwise.  For a
    token without a backslash that has at least one Chinese character and
    at least one Latin-eligible character that is not Chinese, the units
    are the oracle segments of its Chinese characters that have two code
    points or more, in the order of the oracle, followed by its Latin
    eligible characters, never none, lower-cased as one unit; so what the
    token leaves in the result is what passes the filter among the
    segments, followed by the lower-cased English part if it passes. *)
Theorem mixed_token_emitted (text : str) :
  extract_vocabulary text =
    flat_map (fun token => flat_map filter_unit (token_units token))
      (split isspace text) /\
  (forall u,
     (accepted_word (strip isspace u) ->
      filter_unit u = [strip isspace u]) /\
     (~ accepted_word (strip isspace u) -> filter_unit u = [])) /\
  forall token,
    In token (split isspace text) ->
    existsb is_chinese_character token = true ->
    existsb eight_mark_eligible token = true ->
    ~ In 92%N token ->
    filter eight_mark_eligible token <> [] /\
    token_units token =
      filter (fun w => 2 <=? length w)
        (lcut (filter is_chinese_character token)) ++
      [lower (filter eight_mark_eligible token)] /\
    flat_map filter_unit (token_units token) =
      flat_map filter_unit
        (filter (fun w => 2 <=? length w)
           (lcut (filter is_chinese_character token))) ++
      filter_unit (lower (filter eight_mark_eligible token)).
Proof.
  split; [|split].
  - rewrite extract_vocabulary_eq. unfold vocabulary_filter, vocabulary.
    apply flat_map_flat_map.
  - intros u. split.
    + intros H. now apply (proj1 (filter_unit_spec u)).
    + apply not_accepted_filter_unit.
  - intros token Hin Hc He Hb.
    assert (Hext : forall c, In c token ->
                     latin_eligible c = eight_mark_eligible c).
    { intros c Hct. apply eligible_without_backslash.
      intros ->. contradiction. }
    assert (He' : existsb latin_eligible token = true).
    { apply existsb_exists in He as (c & Hct & Hce).
      apply existsb_exists. exists c. split; [exact Hct|].
      now rewrite (Hext c Hct). }
    assert (Hpart : english_part token = filter eight_mark_eligible token).
    { unfold english_part. now apply filter_ext_in. }
    destruct (token_units_mixed text token Hin Hc He') as [Hne Hu].
    rewrite Hpart in Hne, Hu. unfold chinese_part, long_enough in Hu.
    split; [exact Hne|]. split; [exact Hu|].
    rewrite Hu, flat_map_app. cbn [flat_map]. now rewrite app_nil_r.
Qed.

End MixedTokens.

(* ================================================================== *)
(** * Closed examples *)

Local Existing Instance ascii_unicode.
Local Existing Instance pair_segmenter.

Lemma extract_vocabulary_words_witness :
  In Ex.love (extract_vocabulary Ex.filtered_text) /\
  2 <= length Ex.love /\
  (matches_english_pattern Ex.love \/ starts_chinese Ex.love).
Proof.
  assert (H : In Ex.love (extract_vocabulary Ex.filtered_text))
    by (vm_compute; auto).
  split; [exact H|].
  exact (proj1 (extract_vocabulary_words Ex.filtered_text) Ex.love H).
Defined.

Lemma ascii_words_vocabulary_witness :
  (forall c, In c Ex.ascii_text -> c = 32%N \/ pattern_char c) /\
  extract_vocabulary Ex.ascii_text = [Ex.yes; Ex.hip_hop; Ex.rap].
Proof.
  assert (H : forall c, In c Ex.ascii_text -> c = 32%N \/ pattern_char c).
  { intros c Hc. vm_compute in Hc.
    repeat (destruct Hc as [<-|Hc];
            [first [ left; reflexivity
                   | right; apply english_class_pattern; reflexivity ]|]).
    contradiction. }
  split; [exact H|].
  rewrite (ascii_words_vocabulary Ex.ascii_text H). reflexivity.
Defined.

Lemma process_row_counts_witness :
  row_skipped (Ex.song 0 Ex.ab_cd) /\
  process_row new_analyzer (Ex.song 0 Ex.ab_cd) = new_analyzer /\
  ~ row_skipped (Ex.song 2020 Ex.rap_flow_rap) /\
  entry (process_row new_analyzer (Ex.song 2020 Ex.rap_flow_rap))
    2020 Ex.rap = 2%Z.
Proof.
  assert (H1 : row_skipped (Ex.song 0 Ex.ab_cd)).
  { unfold row_skipped. simpl. auto. }
  assert (H2 : ~ row_skipped (Ex.song 2020 Ex.rap_flow_rap)).
  { unfold row_skipped. simpl. intros [H|[H|[H|[H|H]]]]; discriminate. }
  split; [exact H1|]. split.
  - exact (proj1 (process_row_counts new_analyzer _) H1).
  - split; [exact H2|].
    destruct (proj2 (process_row_counts new_analyzer _) H2)
      as (y & lyrics & Hy & _ & Hl & _ & He).
    simpl in Hy, Hl. injection Hy as <-. injection Hl as <-.
    rewrite He. reflexivity.
Defined.

(** C3 as stated fails at the year 0: this row has an integer year and
    lyrics that are not empty, two words are extracted from them, and the
    analyzer is left as it was, the entry of the year 0 and the first word
    not incremented. *)
Lemma year_zero_row_passed_over :
  extract_vocabulary Ex.ab_cd = [Ex.ab; Ex.cd] /\
  process_row new_analyzer (Ex.song 0 Ex.ab_cd) = new_analyzer /\
  entry (process_row new_analyzer (Ex.song 0 Ex.ab_cd)) 0 Ex.ab <>
    (entry new_analyzer 0 Ex.ab + 1)%Z.
Proof.
  split; [reflexivity|]. split; [reflexivity|]. vm_compute. discriminate.
Qed.

Lemma keyword_counts_exact_witness :
  NoDup [Ex.RAP; Ex.flow] /\
  ~ row_skipped (Ex.song 2020 Ex.rap_flow_rap) /\
  In Ex.RAP [Ex.RAP; Ex.flow] /\
  kw_entry
    (process_keyword_row [Ex.RAP; Ex.flow] new_keyword_analyzer
       (Ex.song 2020 Ex.rap_flow_rap)) Ex.RAP 2020 = 2%Z.
Proof.
  assert (H1 : NoDup [Ex.RAP; Ex.flow]).
  { constructor; [simpl; intros [H|[]]; discriminate|].
    constructor; [simpl; tauto | constructor]. }
  assert (H2 : ~ row_skipped (Ex.song 2020 Ex.rap_flow_rap)).
  { unfold row_skipped. simpl. intros [H|[H|[H|[H|H]]]]; discriminate. }
  assert (H3 : In Ex.RAP [Ex.RAP; Ex.flow]) by (simpl; auto).
  split; [exact H1|]. split; [exact H2|]. split; [exact H3|].
  destruct (proj1 (keyword_counts_exact [Ex.RAP; Ex.flow]
                     new_keyword_analyzer _) H1 H2)
    as (y & lyrics & Hy & Hl & HK).
  simpl in Hy, Hl. injection Hy as <-. injection Hl as <-.
  pose proof (HK Ex.RAP) as H. cbv zeta in H. destruct H as (Hin & _).
  rewrite (Hin H3). reflexivity.
Defined.

(** C5 as stated fails on a keyword list that names a keyword twice: one
    word is extracted, it matches the keyword once, and the count of the
    keyword for the year goes from 0 to 2. *)
Lemma repeated_keyword_counted_twice :
  extract_vocabulary Ex.rap = [Ex.rap] /\
  Z.of_nat
    (length (filter (fun W => str_eqb (lower W) (lower Ex.rap))
               (extract_vocabulary Ex.rap))) = 1%Z /\
  kw_entry new_keyword_analyzer Ex.rap 2020 = 0%Z /\
  kw_entry
    (process_keyword_row [Ex.rap; Ex.rap] new_keyword_analyzer
       (Ex.song 2020 Ex.rap)) Ex.rap 2020 = 2%Z.
Proof. repeat split. Qed.

Lemma yearly_rankings_ranked_witness :
  In (2020%Z, [(Ex.rap, 2%Z); (Ex.flow, 2%Z)])
    (generate_yearly_rankings 2 (analyze_csv_file Ex.songs new_analyzer)) /\
  exists items ranked,
    In (2020%Z, items)
      (vocab_by_year (analyze_csv_file Ex.songs new_analyzer)) /\
    Permutation ranked items /\
    StronglySorted (fun p q => (snd q <= snd p)%Z) ranked /\
    (forall n, filter (fun p => (snd p =? n)%Z) ranked =
               filter (fun p => (snd p =? n)%Z) items) /\
    [(Ex.rap, 2%Z); (Ex.flow, 2%Z)] = firstn (Z.to_nat 2) ranked.
Proof.
  assert (H : In (2020%Z, [(Ex.rap, 2%Z); (Ex.flow, 2%Z)])
                (generate_yearly_rankings 2
                   (analyze_csv_file Ex.songs new_analyzer)))
    by (vm_compute; auto).
  split; [exact H|].
  exact (proj2 (proj2 (yearly_rankings_ranked Ex.songs 2)) _ _ H).
Defined.

Lemma frequency_data_sorted_positive_witness :
  In (Ex.flow, [(2019, 2); (2020, 2)]%Z)
    (generate_frequency_data
       (analyze_keywords Ex.songs [Ex.flow; Ex.RAP] new_keyword_analyzer)) /\
  StronglySorted Z.lt (map fst [(2019, 2); (2020, 2)]%Z) /\
  Forall (fun yc : Z * Z => (0 < snd yc)%Z) [(2019, 2); (2020, 2)]%Z.
Proof.
  assert (H : In (Ex.flow, [(2019, 2); (2020, 2)]%Z)
                (generate_frequency_data
                   (analyze_keywords Ex.songs [Ex.flow; Ex.RAP]
                      new_keyword_analyzer)))
    by (vm_compute; auto).
  split; [exact H|].
  destruct (proj2 (frequency_data_sorted_positive Ex.songs
                     [Ex.flow; Ex.RAP]) _ _ H) as (H1 & H2 & _).
  split; [exact H1 | exact H2].
Defined.

Lemma counters_monotone_witness :
  (row_year Ex.row_without_year = YearMissing \/
   read_lyrics (row_lyrics Ex.row_without_year) = []) /\
  process_row (analyze_csv_file Ex.songs new_analyzer) Ex.row_without_year =
    analyze_csv_file Ex.songs new_analyzer /\
  process_keyword_row [Ex.flow]
    (analyze_keywords Ex.songs [Ex.flow] new_keyword_analyzer)
    Ex.row_without_year =
    analyze_keywords Ex.songs [Ex.flow] new_keyword_analyzer.
Proof.
  assert (H : row_year Ex.row_without_year = YearMissing \/
              read_lyrics (row_lyrics Ex.row_without_year) = [])
    by (left; reflexivity).
  split; [exact H|].
  exact (proj2 (proj2 (counters_monotone [Ex.flow]
                         (analyze_csv_file Ex.songs new_analyzer)
                         (analyze_keywords Ex.songs [Ex.flow]
                            new_keyword_analyzer)
                         Ex.row_without_year [])) H).
Defined.

(** ** Closed examples of the further properties *)

Lemma no_eligible_character_no_vocabulary_witness :
  (forall c, In c Ex2.symbols ->
     is_chinese_character c = false /\ latin_eligible c = false) /\
  extract_vocabulary Ex2.symbols = [].
Proof.
  assert (H : forall c, In c Ex2.symbols ->
              is_chinese_character c = false /\ latin_eligible c = false).
  { intros c Hc. vm_compute in Hc.
    repeat (destruct Hc as [<-|Hc]; [split; reflexivity|]).
    contradiction. }
  split; [exact H|].
  exact (no_eligible_character_no_vocabulary Ex2.symbols H).
Defined.

Lemma extract_vocabulary_app_witness :
  isspace 32%N = true /\
  extract_vocabulary (Ex.rap ++ 32%N :: Ex.wo_ai_ni) =
  extract_vocabulary Ex.rap ++ extract_vocabulary Ex.wo_ai_ni.
Proof.
  assert (H : isspace 32%N = true) by reflexivity.
  split; [exact H|].
  exact (extract_vocabulary_app Ex.rap Ex.wo_ai_ni 32%N H).
Defined.

Lemma extract_vocabulary_tokens_witness :
  split isspace Ex2.padded_rap = split isspace Ex.rap /\
  extract_vocabulary Ex2.padded_rap = extract_vocabulary Ex.rap.
Proof.
  assert (H : split isspace Ex2.padded_rap = split isspace Ex.rap)
    by reflexivity.
  split; [exact H|].
  exact (proj1 (extract_vocabulary_tokens Ex2.padded_rap Ex.rap) H).
Defined.

Lemma chinese_token_vocabulary_witness :
  Ex2.chinese_token <> [] /\
  forallb is_chinese_character Ex2.chinese_token = true /\
  (forall w, In w (lcut Ex2.chinese_token) ->
             forallb is_chinese_character w = true) /\
  extract_vocabulary Ex2.chinese_token = [Ex.wo_ai; Ex2.ni_wo].
Proof.
  assert (H1 : Ex2.chinese_token <> []) by discriminate.
  assert (H2 : forallb is_chinese_character Ex2.chinese_token = true)
    by reflexivity.
  assert (H3 : forall w, In w (lcut Ex2.chinese_token) ->
                         forallb is_chinese_character w = true).
  { intros w Hw. vm_compute in Hw.
    repeat (destruct Hw as [<-|Hw]; [reflexivity|]). contradiction. }
  split; [exact H1|]. split; [exact H2|]. split; [exact H3|].
  rewrite (chinese_token_vocabulary H1 H2 H3). reflexivity.
Defined.

Lemma ascii_text_vocabulary_correct_witness :
  forallb is_ascii Ex2.ascii_mix = true /\
  extract_vocabulary Ex2.ascii_mix = [Ex.ab; Ex.yes].
Proof.
  assert (H : forallb is_ascii Ex2.ascii_mix = true) by reflexivity.
  split; [exact H|].
  rewrite (ascii_text_vocabulary_correct Ex2.ascii_mix H). reflexivity.
Defined.

Lemma is_english_word_newline_witness :
  (matches_english_pattern Ex2.ab_newline \/
   exists w', Ex2.ab_newline = w' ++ [10%N] /\
              matches_english_pattern w') /\
  is_english_word Ex2.ab_newline = true.
Proof.
  assert (H : matches_english_pattern Ex2.ab_newline \/
              exists w', Ex2.ab_newline = w' ++ [10%N] /\
                         matches_english_pattern w').
  { right. exists Ex.ab. split; [reflexivity|].
    split; [discriminate|]. now apply forallb_class_pattern. }
  split; [exact H|].
  exact (proj2 (is_english_word_newline Ex2.ab_newline) H).
Defined.

Lemma table_structure_witness :
  In (2019%Z, [(Ex.flow, 2%Z); (Ex.beat, 1%Z)])
    (vocab_by_year (analyze_csv_file Ex.songs new_analyzer)) /\
  [(Ex.flow, 2%Z); (Ex.beat, 1%Z)] <> [] /\
  NoDup (Dict.keys [(Ex.flow, 2%Z); (Ex.beat, 1%Z)]) /\
  forall w n, In (w, n) [(Ex.flow, 2%Z); (Ex.beat, 1%Z)] ->
    (1 <= n)%Z /\
    entry (analyze_csv_file Ex.songs new_analyzer) 2019 w = n.
Proof.
  assert (H : In (2019%Z, [(Ex.flow, 2%Z); (Ex.beat, 1%Z)])
                (vocab_by_year (analyze_csv_file Ex.songs new_analyzer)))
    by (vm_compute; auto).
  split; [exact H|].
  exact (proj2 (proj2 (table_structure Ex.songs)) _ _ H).
Defined.

Lemma counted_words_accepted_witness :
  (0 < entry (analyze_csv_file Ex.songs new_analyzer) 2020 Ex.rap)%Z /\
  2020%Z <> 0%Z /\ accepted_word Ex.rap.
Proof.
  assert (H : (0 < entry (analyze_csv_file Ex.songs new_analyzer)
                     2020 Ex.rap)%Z) by reflexivity.
  split; [exact H|].
  exact (counted_words_accepted Ex.songs 2020 Ex.rap H).
Defined.

Lemma analysis_order_independent_witness :
  Permutation Ex.songs (rev Ex.songs) /\
  (forall y w,
     entry (analyze_csv_file Ex.songs new_analyzer) y w =
     entry (analyze_csv_file (rev Ex.songs) new_analyzer) y w).
Proof.
  assert (H : Permutation Ex.songs (rev Ex.songs))
    by apply Permutation_rev.
  split; [exact H|].
  exact (proj1 (analysis_order_independent new_analyzer H)).
Defined.

Lemma process_row_noop_witness :
  (row_skipped Ex2.at_sign_song \/
   extract_vocabulary (read_lyrics (row_lyrics Ex2.at_sign_song)) = []) /\
  process_row new_analyzer Ex2.at_sign_song = new_analyzer /\
  ~ row_skipped Ex2.rap_song /\
  extract_vocabulary (read_lyrics (row_lyrics Ex2.rap_song)) <> [] /\
  songs_processed (process_row new_analyzer Ex2.rap_song) = 1%Z.
Proof.
  assert (H1 : row_skipped Ex2.at_sign_song \/
               extract_vocabulary
                 (read_lyrics (row_lyrics Ex2.at_sign_song)) = [])
    by (right; reflexivity).
  assert (H2 : ~ row_skipped Ex2.rap_song).
  { unfold row_skipped. simpl. intros [H|[H|[H|[H|H]]]]; discriminate. }
  assert (H3 : extract_vocabulary (read_lyrics (row_lyrics Ex2.rap_song))
               <> []) by (vm_compute; discriminate).
  split; [exact H1|]. split.
  - exact (proj1 (process_row_noop new_analyzer Ex2.at_sign_song) H1).
  - split; [exact H2|]. split; [exact H3|].
    exact (proj1 (proj2 (process_row_noop new_analyzer Ex2.rap_song)
                    H2 H3)).
Defined.

Lemma year_range_correct_witness :
  vs_year_range
    (get_vocabulary_stats (analyze_csv_file Ex.songs new_analyzer)) =
    Some (2019%Z, 2020%Z) /\
  (2019 <= 2020)%Z /\
  In 2019%Z
    (Dict.keys (vocab_by_year (analyze_csv_file Ex.songs new_analyzer))) /\
  In 2020%Z
    (Dict.keys (vocab_by_year (analyze_csv_file Ex.songs new_analyzer))) /\
  forall y,
    In y (Dict.keys
            (vocab_by_year (analyze_csv_file Ex.songs new_analyzer))) ->
    (2019 <= y <= 2020)%Z.
Proof.
  assert (H : vs_year_range
                (get_vocabulary_stats
                   (analyze_csv_file Ex.songs new_analyzer)) =
              Some (2019%Z, 2020%Z)) by reflexivity.
  split; [exact H|].
  exact (proj2 (year_range_correct Ex.songs) _ _ H).
Defined.

Lemma rankings_length_witness :
  In (2019%Z, [(Ex.flow, 2%Z)])
    (generate_yearly_rankings 1 (analyze_csv_file Ex.songs new_analyzer)) /\
  Z.of_nat (length [(Ex.flow, 2%Z)]) =
    Z.min (Z.max 1 0)
      (Z.of_nat
         (length
            (Dict.get Z.eqb [] 2019%Z
               (vocab_by_year (analyze_csv_file Ex.songs new_analyzer))))).
Proof.
  assert (H : In (2019%Z, [(Ex.flow, 2%Z)])
                (generate_yearly_rankings 1
                   (analyze_csv_file Ex.songs new_analyzer)))
    by (vm_compute; auto).
  split; [exact H|].
  exact (proj1 (proj2 (rankings_length 1
                         (analyze_csv_file Ex.songs new_analyzer))
                  _ _ H)).
Defined.

Lemma rankings_prefix_witness :
  (1 <= 2)%Z /\
  generate_yearly_rankings 1 (analyze_csv_file Ex.songs new_analyzer) =
  map (fun yl => (fst yl, firstn (Z.to_nat 1) (snd yl)))
    (generate_yearly_rankings 2 (analyze_csv_file Ex.songs new_analyzer)).
Proof.
  assert (H : (1 <= 2)%Z) by lia.
  split; [exact H|].
  exact (rankings_prefix (analyze_csv_file Ex.songs new_analyzer) H).
Defined.

Lemma rankings_sound_witness :
  In (2019%Z, [(Ex.flow, 2%Z)])
    (generate_yearly_rankings 1 (analyze_csv_file Ex.songs new_analyzer)) /\
  NoDup (map fst [(Ex.flow, 2%Z)]) /\
  forall w n, In (w, n) [(Ex.flow, 2%Z)] ->
    entry (analyze_csv_file Ex.songs new_analyzer) 2019 w = n /\
    (1 <= n)%Z.
Proof.
  assert (H : In (2019%Z, [(Ex.flow, 2%Z)])
                (generate_yearly_rankings 1
                   (analyze_csv_file Ex.songs new_analyzer)))
    by (vm_compute; auto).
  split; [exact H|].
  exact (rankings_sound Ex.songs 1 2019 [(Ex.flow, 2%Z)] H).
Defined.

Lemma rankings_top_witness :
  In (2019%Z, [(Ex.flow, 2%Z)])
    (generate_yearly_rankings 1 (analyze_csv_file Ex.songs new_analyzer)) /\
  ~ In Ex.beat (map fst [(Ex.flow, 2%Z)]) /\
  In (Ex.flow, 2%Z) [(Ex.flow, 2%Z)] /\
  (entry (analyze_csv_file Ex.songs new_analyzer) 2019 Ex.beat <= 2)%Z.
Proof.
  assert (H1 : In (2019%Z, [(Ex.flow, 2%Z)])
                 (generate_yearly_rankings 1
                    (analyze_csv_file Ex.songs new_analyzer)))
    by (vm_compute; auto).
  assert (H2 : ~ In Ex.beat (map fst [(Ex.flow, 2%Z)])).
  { simpl. intros [H|[]]. discriminate. }
  assert (H3 : In (Ex.flow, 2%Z) [(Ex.flow, 2%Z)]) by (simpl; auto).
  split; [exact H1|]. split; [exact H2|]. split; [exact H3|].
  exact (rankings_top Ex.songs 1 2019 [(Ex.flow, 2%Z)] H1 Ex.beat H2
           Ex.flow 2%Z H3).
Defined.

Lemma keyword_table_keys_witness :
  (0 < kw_entry
         (analyze_keywords Ex.songs Ex2.keywords new_keyword_analyzer)
         Ex.flow 2019)%Z /\
  In Ex.flow Ex2.keywords /\ 2019%Z <> 0%Z.
Proof.
  assert (H : (0 < kw_entry
                     (analyze_keywords Ex.songs Ex2.keywords
                        new_keyword_analyzer) Ex.flow 2019)%Z)
    by reflexivity.
  split; [exact H|].
  exact (proj2 (keyword_table_keys Ex.songs Ex2.keywords) _ _ H).
Defined.

Lemma keyword_detail_correct_witness :
  In (Ex.flow,
      {| kd_total_frequency := 4; kd_years_active := 2;
         kd_year_range := (2019%Z, 2020%Z) |})
    (ks_keyword_details
       (get_keyword_stats
          (analyze_keywords Ex.songs Ex2.keywords new_keyword_analyzer))) /\
  (1 <= 2 <= 4)%Z /\
  4%Z = years_total
          (Dict.get str_eqb [] Ex.flow
             (keyword_frequencies
                (analyze_keywords Ex.songs Ex2.keywords
                   new_keyword_analyzer))).
Proof.
  assert (H : In (Ex.flow,
                  {| kd_total_frequency := 4; kd_years_active := 2;
                     kd_year_range := (2019%Z, 2020%Z) |})
                (ks_keyword_details
                   (get_keyword_stats
                      (analyze_keywords Ex.songs Ex2.keywords
                         new_keyword_analyzer))))
    by (vm_compute; auto).
  split; [exact H|].
  pose proof (keyword_detail_correct Ex.songs Ex2.keywords Ex.flow _ H)
    as (H1 & H2 & _).
  split; [exact H1 | exact H2].
Defined.

Lemma keyword_analysis_order_independent_witness :
  Permutation Ex.songs (rev Ex.songs) /\
  Permutation Ex2.keywords (rev Ex2.keywords) /\
  (forall k y,
     kw_entry (analyze_keywords Ex.songs Ex2.keywords new_keyword_analyzer)
       k y =
     kw_entry
       (analyze_keywords (rev Ex.songs) (rev Ex2.keywords)
          new_keyword_analyzer) k y).
Proof.
  assert (H1 : Permutation Ex.songs (rev Ex.songs))
    by apply Permutation_rev.
  assert (H2 : Permutation Ex2.keywords (rev Ex2.keywords))
    by apply Permutation_rev.
  split; [exact H1|]. split; [exact H2|].
  exact (proj1 (keyword_analysis_order_independent
                  new_keyword_analyzer H1 H2)).
Defined.

Lemma keyword_total_years_bound_witness :
  (exists k,
     (0 < kw_entry
            (analyze_keywords Ex.songs Ex2.keywords new_keyword_analyzer)
            k 2019)%Z) /\
  In 2019%Z
    (nodup Z.eq_dec
       (flat_map (fun kv => Dict.keys (snd kv))
          (keyword_frequencies
             (analyze_keywords Ex.songs Ex2.keywords
                new_keyword_analyzer)))).
Proof.
  assert (H : exists k,
            (0 < kw_entry
                   (analyze_keywords Ex.songs Ex2.keywords
                      new_keyword_analyzer) k 2019)%Z)
    by (exists Ex.flow; reflexivity).
  split; [exact H|].
  exact (proj2 (proj2 (keyword_total_years_bound Ex.songs Ex2.keywords)
                  2019%Z) H).
Defined.

Lemma extract_vocabulary_filtered_witness :
  In Ex.love (extract_vocabulary Ex.filtered_text) /\
  strip isspace Ex.love = Ex.love.
Proof.
  assert (H : In Ex.love (extract_vocabulary Ex.filtered_text))
    by (vm_compute; auto).
  split; [exact H|].
  exact (proj2 (extract_vocabulary_filtered Ex.filtered_text) Ex.love H).
Defined.

Lemma mixed_token_vocabulary_witness :
  forallb (fun c => negb (isspace c)) Ex.mixed_token = true /\
  existsb is_chinese_character Ex.mixed_token = true /\
  existsb latin_eligible Ex.mixed_token = true /\
  forallb is_ascii (english_part Ex.mixed_token) = true /\
  (forall w, In w (lcut (chinese_part Ex.mixed_token)) ->
             forallb is_chinese_character w = true) /\
  extract_vocabulary Ex.mixed_token = [Ex.wo_ai; Ex.rap].
Proof.
  assert (H1 : forallb (fun c => negb (isspace c)) Ex.mixed_token = true)
    by reflexivity.
  assert (H2 : existsb is_chinese_character Ex.mixed_token = true)
    by reflexivity.
  assert (H3 : existsb latin_eligible Ex.mixed_token = true)
    by reflexivity.
  assert (H4 : forallb is_ascii (english_part Ex.mixed_token) = true)
    by reflexivity.
  assert (H5 : forall w, In w (lcut (chinese_part Ex.mixed_token)) ->
                         forallb is_chinese_character w = true).
  { intros w Hw. vm_compute in Hw.
    repeat (destruct Hw as [<-|Hw]; [reflexivity|]). contradiction. }
  split; [exact H1|]. split; [exact H2|]. split; [exact H3|].
  split; [exact H4|]. split; [exact H5|].
  rewrite (mixed_token_vocabulary Ex.mixed_token H1 H2 H3 H4 H5).
  reflexivity.
Defined.

Lemma print_summary_entries_witness :
  In (Ex.beat, NoData)
    (print_summary [Ex.flow; Ex.beat]
       (analyze_keywords Ex.songs Ex2.keywords new_keyword_analyzer)) /\
  NoData <> NoOccurrences /\
  (NoData = NoData <->
   forall y,
     kw_entry (analyze_keywords Ex.songs Ex2.keywords new_keyword_analyzer)
       Ex.beat y = 0%Z).
Proof.
  assert (H : In (Ex.beat, NoData)
                (print_summary [Ex.flow; Ex.beat]
                   (analyze_keywords Ex.songs Ex2.keywords
                      new_keyword_analyzer)))
    by (vm_compute; auto).
  split; [exact H|].
  pose proof (print_summary_entries Ex.songs Ex2.keywords
                [Ex.flow; Ex.beat] Ex.beat NoData H) as (H1 & H2 & _).
  split; [exact H1 | exact H2].
Defined.

(** ** Closed examples for mixed tokens *)

Lemma mixed_token_emitted_witness :
  In Ex.mixed_token (split isspace Ex.mixed_text) /\
  existsb is_chinese_character Ex.mixed_token = true /\
  existsb eight_mark_eligible Ex.mixed_token = true /\
  ~ In 92%N Ex.mixed_token /\
  flat_map filter_unit (token_units Ex.mixed_token) = [Ex.wo_ai; Ex.rap].
Proof.
  assert (H1 : In Ex.mixed_token (split isspace Ex.mixed_text))
    by (vm_compute; auto).
  assert (H2 : existsb is_chinese_character Ex.mixed_token = true)
    by reflexivity.
  assert (H3 : existsb eight_mark_eligible Ex.mixed_token = true)
    by reflexivity.
  assert (H4 : ~ In 92%N Ex.mixed_token).
  { vm_compute. intros H.
    repeat (destruct H as [H|H]; [discriminate|]). exact H. }
  split; [exact H1|]. split; [exact H2|]. split; [exact H3|].
  split; [exact H4|].
  destruct (proj2 (proj2 (mixed_token_emitted Ex.mixed_text))
              _ H1 H2 H3 H4) as (_ & _ & E).
  rewrite E. reflexivity.
Defined.

(** C1 as stated fails on a token whose English part has one letter: the
    token has Chinese characters and a Latin-eligible character that is not
    Chinese, its segments of two code points or more are the one segment of
    its two Chinese characters, its lower-cased English part is the letter
    a, and [extract_vocabulary] returns the segment alone, the English part
    being dropped by the filter loop. *)
Lemma one_letter_english_part_not_emitted :
  In Ex3.ni_hao_A (split isspace Ex3.ni_hao_A) /\
  existsb is_chinese_character Ex3.ni_hao_A = true /\
  existsb latin_eligible Ex3.ni_hao_A = true /\
  existsb eight_mark_eligible Ex3.ni_hao_A = true /\
  filter long_enough (lcut (chinese_part Ex3.ni_hao_A)) = [Ex3.ni_hao] /\
  english_part Ex3.ni_hao_A <> [] /\
  lower (english_part Ex3.ni_hao_A) = Ex3.a /\
  token_units Ex3.ni_hao_A = [Ex3.ni_hao; Ex3.a] /\
  extract_vocabulary Ex3.ni_hao_A = [Ex3.ni_hao] /\
  extract_vocabulary Ex3.ni_hao_A <> [Ex3.ni_hao; Ex3.a].
Proof.
  split; [vm_compute; auto|].
  repeat (split; [reflexivity || (vm_compute; discriminate)|]).
  vm_compute. discriminate.
Qed.
